(** * Font sprite sheet generator

    A shallow embedding of [scripts/font_spritesheet_generator.py] and the
    properties of its pieces of logic: locating a font
    ([find_system_font]), fitting a point size into the 16x16 cell
    ([calculate_optimal_font_size]), packing the character set into a
    row-major grid with pixel and UV metadata and writing the sheet
    ([generate_sprite_sheet]), and running a batch of sizes ([main]). *)

From Stdlib Require Import ZArith Lia List Ascii String Sorted.
From Stdlib Require Floats.SpecFloat.
From stdpp Require Import gmap strings pretty.

Local Open Scope Z_scope.

(** ** Python numbers

    Python's [int] is unbounded: [Z].  Its [float] is IEEE 754 binary64.  The
    script produces floats in two places only, [num_chars / columns] and the
    four UV quotients, always as the true division of two integers, which
    CPython rounds correctly (to nearest, ties to even).  A float is kept as
    a pair mantissa/exponent standing for [mant * 2 ^ expo]; the exponent is
    not bounded, so the model is exact as long as the quotient lies in
    binary64's normal range (magnitudes between 2^-1022 and 2^1024). *)

Module Float64.

Record binary64 : Type := B64 { mant : Z; expo : Z }.

(** [rne n d]: the integer nearest to [n / d], ties to the even one
    ([d] positive). *)
Definition rne (n d : Z) : Z :=
  let q := n / d in
  match 2 * (n mod d) ?= d with
  | Lt => q
  | Gt => q + 1
  | Eq => if Z.even q then q else q + 1
  end.

(** Numerator and denominator of [a / (b * 2 ^ e)]. *)
Definition scaled_num (a e : Z) : Z := a * 2 ^ Z.max 0 (- e).
Definition scaled_den (b e : Z) : Z := b * 2 ^ Z.max 0 e.

(** Correctly rounded quotient of two positive integers: the exponent is
    the one that puts [a / b / 2 ^ e] in [[2^52, 2^53)], the mantissa is
    that number rounded to nearest-even. *)
Definition fl_quot (a b : Z) : binary64 :=
  let e1 := Z.log2 a - Z.log2 b - 52 in
  let e := if 2 ^ 52 * scaled_den b e1 <=? scaled_num a e1
           then e1 else e1 - 1 in
  B64 (rne (scaled_num a e) (scaled_den b e)) e.

(** [a / b] on two ints; [None] is [ZeroDivisionError].  The result is
    CPython's while the quotient is in the normal range; a smaller one
    underflows there ([1 / 2 ** 1075] is [0.0]) and is kept here. *)
Definition true_div (a b : Z) : option binary64 :=
  if b =? 0 then None
  else if a =? 0 then Some (B64 0 0)
  else let r := fl_quot (Z.abs a) (Z.abs b) in
       Some (B64 (Z.sgn a * Z.sgn b * mant r) (expo r)).

(** [math.ceil] of a float. *)
Definition math_ceil (f : binary64) : Z :=
  - ((- scaled_num (mant f) (- expo f)) / scaled_den 1 (- expo f)).

(** [round(f, 6)].  CPython rounds the exact binary value of [f] to six
    decimals, ties to even, and returns the double nearest to that decimal;
    [json.dump] then prints the shortest decimal that reads back as this
    double, which is the six-digit decimal itself.  The result is kept as
    the number of millionths. *)
Definition dec6 : Type := Z.

Definition round6 (f : binary64) : dec6 :=
  rne (scaled_num (mant f) (- expo f) * 1000000) (scaled_den 1 (- expo f)).

(** The same float as a value of the Standard Library's IEEE 754
    specification, to compare [true_div] with its [SFdiv]. *)
Definition to_spec (f : binary64) : SpecFloat.spec_float :=
  SpecFloat.binary_normalize 53 1024 (mant f) (expo f) false.

Definition spec_div (a b : Z) : SpecFloat.spec_float :=
  SpecFloat.SFdiv 53 1024
    (SpecFloat.binary_normalize 53 1024 a 0 false)
    (SpecFloat.binary_normalize 53 1024 b 0 false).

End Float64.

Export Float64.

(** ** Effects

    A call either returns or raises; meanwhile it probes the file system and
    prints warnings.  Both are recorded, in order, in a trace. *)

Inductive exn : Type :=
| ZeroDivisionError
| ValueError (msg : string)
| LibraryError.            (* any exception raised inside Pillow *)

(** The lines the script prints when it recovers from a failure (the text of
    the caught exception, which ends two of them, is left out). *)
Inductive warning : Type :=
| FontNotFound (font_name : string)   (* "Warning: Font '..' not found. Trying default font." *)
| CouldNotLoad (size : Z)             (* "Warning: Could not load font at size ..: .." *)
| CouldNotRender (char : ascii).      (* "Warning: Could not render character '..': .." *)

Inductive event : Type :=
| Probe (path : string)               (* os.path.exists(path) *)
| Print (w : warning).

Definition M (A : Type) : Type := (exn + A) * list event.

Definition ret {A} (a : A) : M A := (inr a, []).
Definition raise {A} (e : exn) : M A := (inl e, []).
Definition emit (ev : event) : M unit := (inr tt, [ev]).

Definition bind {A B} (m : M A) (k : A → M B) : M B :=
  match m with
  | (inl e, t) => (inl e, t)
  | (inr a, t) => let '(r, t') := k a in (r, t ++ t')
  end.

(** [try: body / except Exception: handler]. *)
Definition try_except {A} (body : M A) (handler : exn → M A) : M A :=
  match body with
  | (inl e, t) => let '(r, t') := handler e in (r, t ++ t')
  | ok => ok
  end.

(** A library call that may raise. *)
Definition call {A} (o : option A) : M A :=
  match o with
  | Some a => ret a
  | None => raise LibraryError
  end.

Notation "x <- m ;; k" := (bind m (fun x => k))
  (at level 90, m at level 80, right associativity).
Notation "m ;;; k" := (bind m (fun _ => k))
  (at level 90, right associativity).

Definition outcome {A} (m : M A) : exn + A := fst m.
Definition trace {A} (m : M A) : list event := snd m.

Definition printed (t : list event) : list warning :=
  omap (fun ev => match ev with Print w => Some w | Probe _ => None end) t.

Definition probed (t : list event) : list string :=
  omap (fun ev => match ev with Probe p => Some p | Print _ => None end) t.

(** ** The platform: file system and Pillow

    [None] stands for a raised exception. *)

Class Platform (Font Canvas : Type) : Type := {
  path_exists : string → bool;                      (* os.path.exists *)
  load_default : option Font;                       (* ImageFont.load_default() *)
  truetype : string → Z → option Font;              (* ImageFont.truetype(path, size) *)
  textbbox : Font → ascii → option (Z * Z * Z * Z); (* draw.textbbox((0, 0), char, font=font) *)
  image_new : Z → Z → option Canvas;                (* Image.new('RGBA', (w, h), (0, 0, 0, 0)) *)
  draw_text : Canvas → Z → Z → ascii → Font → option Canvas
                                                    (* draw.text((cx, cy), char, font=font, ..) *)
}.

(** Line 24: A-Z, a-z, 0-9 and punctuation (the double quote is character
    34).  The asterisk occurs twice. *)
Definition DEFAULT_CHARACTER_SET : string :=
  "ABCDEFGHIJKLMNOPQRSTUVWXYZ"
  +:+ "abcdefghijklmnopqrstuvwxyz"
  +:+ "0123456789"
  +:+ ".,!?;:'" +:+ String "034"%char EmptyString
  +:+ "()[]{}+-=*/\|@#$%^&*_~`<> ".

Definition CELL_SIZE : Z := 16.

(** One value of [character_map] and the metadata written to the JSON
    sidecar; the fields are the JSON keys. *)
Module Glyph.
Record t : Type := mk {
  index : Z; x : Z; y : Z;
  u0 : dec6; v0 : dec6; u1 : dec6; v1 : dec6 }.
End Glyph.

Module Metadata.
Record t : Type := mk {
  font_name : string;
  font_size : Z;
  cell_width : Z;
  cell_height : Z;
  columns : Z;
  rows : Z;
  image_width : Z;
  image_height : Z;
  character_count : Z;
  character_map : gmap ascii Glyph.t }.
End Metadata.

(** A float computation that may divide by zero, as a statement. *)
Definition arith {A} (o : option A) : M A :=
  match o with
  | Some a => ret a
  | None => raise ZeroDivisionError
  end.

(** The metadata a run of [generate_sprite_sheet] writes, if it ends. *)
Definition metadata_of {Canvas} (m : M (Canvas * Metadata.t)) : exn + Metadata.t :=
  sum_map id snd (outcome m).

(** Lines 137-140: rows, image width and image height. *)
Definition grid_geometry (num_chars columns : Z) : option (Z * Z * Z) :=
  q ← true_div num_chars columns;
  let rows := math_ceil q in
  let img_width := columns * CELL_SIZE in
  let img_height := rows * CELL_SIZE in
  Some (rows, img_width, img_height).

(** Lines 151-156 and 175-189: the metadata of the character at position
    [i].  [columns] is not 0 here: line 138 has already divided by it. *)
Definition cell_glyph (columns img_width img_height i : Z) : option Glyph.t :=
  let col := i `mod` columns in
  let row := i `div` columns in
  let x := col * CELL_SIZE in
  let y := row * CELL_SIZE in
  u0 ← true_div x img_width;
  v0 ← true_div y img_height;
  u1 ← true_div (x + CELL_SIZE) img_width;
  v1 ← true_div (y + CELL_SIZE) img_height;
  Some (Glyph.mk i x y (round6 u0) (round6 v0) (round6 u1) (round6 v1)).

(** The dict the rendering loop builds from [character_map], for the
    characters [chars] at positions [i], [i + 1], ...: one assignment
    [character_map[char] = entry] per position.  It is used to state what
    the loop of [generate_sprite_sheet] computes whatever the drawing does. *)
Fixpoint layout (columns img_width img_height i : Z) (chars : list ascii)
    (character_map : gmap ascii Glyph.t) : gmap ascii Glyph.t :=
  match chars with
  | [] => character_map
  | char :: rest =>
      layout columns img_width img_height (i + 1) rest
        (match cell_glyph columns img_width img_height i with
         | Some entry => <[char := entry]> character_map
         | None => character_map
         end)
  end.

(** ** Strings *)

Definition lower_ascii (c : ascii) : ascii :=
  let n := N_of_ascii c in
  if ((65 <=? n) && (n <=? 90))%N then ascii_of_N (n + 32) else c.

(** [str.lower()], on ASCII text. *)
Fixpoint lower (s : string) : string :=
  match s with
  | EmptyString => EmptyString
  | String c s' => String (lower_ascii c) (lower s')
  end.

(** [range(start, stop, -1)]. *)
Definition range_down (start stop : Z) : list Z :=
  map (fun k => start - Z.of_nat k) (seq 0 (Z.to_nat (start - stop))).

Section Generator.

Context {Font Canvas : Type} {P : Platform Font Canvas}.

(** What [find_system_font] returns and [calculate_optimal_font_size]
    receives: a path ([str]) or an already loaded font object. *)
Inductive font_handle : Type :=
| FontPath (path : string)
| FontObject (font : Font).

(** *** find_system_font (lines 34-63) *)

Definition font_paths (font_name : string) : list string :=
  [ "/usr/share/fonts/truetype/" +:+ lower font_name +:+ "/" +:+ font_name +:+ ".ttf";
    "/usr/share/fonts/truetype/" +:+ lower font_name +:+ ".ttf";
    "/usr/share/fonts/TTF/" +:+ font_name +:+ ".ttf";
    "/System/Library/Fonts/" +:+ font_name +:+ ".ttf";
    "C:\Windows\Fonts\" +:+ font_name +:+ ".ttf";
    "/usr/share/fonts/truetype/dejavu/DejaVu" +:+ font_name +:+ ".ttf";
    "/usr/share/fonts/truetype/liberation/Liberation" +:+ font_name +:+ ".ttf" ].

Definition os_path_exists (path : string) : M bool :=
  emit (Probe path) ;;; ret (path_exists path).

(** The [for path in font_paths] loop; [None] when it runs to its end. *)
Fixpoint first_existing (paths : list string) : M (option string) :=
  match paths with
  | [] => ret None
  | path :: rest =>
      found <- os_path_exists path ;;
      if found then ret (Some path) else first_existing rest
  end.

Definition find_system_font (font_name : string) : M font_handle :=
  exact <- os_path_exists font_name ;;
  if exact then ret (FontPath font_name)
  else
    hit <- first_existing (font_paths font_name) ;;
    match hit with
    | Some path => ret (FontPath path)
    | None =>
        emit (Print (FontNotFound font_name)) ;;;
        try_except
          (font <- call load_default ;; ret (FontObject font))
          (fun _ => raise (ValueError ("Could not find font: " +:+ font_name)))
    end.

(** *** calculate_optimal_font_size (lines 66-117) *)

Definition test_chars : string :=
  "ABCDEFGHIJKLMNOPQRSTUVWXYZabcdefghijklmnopqrstuvwxyz0123456789Wm@#".

(** [test_chars[:10]]. *)
Definition probe_chars : list ascii :=
  take 10 (list_ascii_of_string test_chars).

(** One turn of the measuring loop (lines 96-100). *)
Definition measure_char (font : Font) (acc : Z * Z) (char : ascii) : option (Z * Z) :=
  match textbbox font char with
  | Some (x0, y0, x1, y1) =>
      let width := x1 - x0 in
      let height := y1 - y0 in
      Some (Z.max (fst acc) width, Z.max (snd acc) height)
  | None => None
  end.

Fixpoint measure_chars (font : Font) (acc : Z * Z) (chars : list ascii) : option (Z * Z) :=
  match chars with
  | [] => Some acc
  | char :: rest =>
      match measure_char font acc char with
      | Some acc' => measure_chars font acc' rest
      | None => None
      end
  end.

(** Lines 89-100: the scratch image, then [max_width] and [max_height]
    over the probe characters. *)
Definition measure (font : Font) : option (Z * Z) :=
  match image_new 100 100 with
  | Some _ => measure_chars font (0, 0) probe_chars
  | None => None
  end.

(** The body of the [for size] loop: [Some r] is [return r], [None] falls
    through to the next size. *)
Definition try_size (font_path : font_handle) (max_fit_size size : Z)
  : M (option (Font * Z)) :=
  try_except
    (match font_path with
     | FontPath path =>
         font <- call (truetype path size) ;;
         box <- call (measure font) ;;
         let '(max_width, max_height) := box in
         if (max_width <=? max_fit_size) && (max_height <=? max_fit_size)
         then ret (Some (font, size))
         else ret None
     | FontObject font => ret (Some (font, 10))
     end)
    (fun _ => emit (Print (CouldNotLoad size)) ;;; ret None).

Fixpoint search_sizes (font_path : font_handle) (max_fit_size : Z) (sizes : list Z)
  : M (option (Font * Z)) :=
  match sizes with
  | [] => ret None
  | size :: rest =>
      r <- try_size font_path max_fit_size size ;;
      match r with
      | Some found => ret (Some found)
      | None => search_sizes font_path max_fit_size rest
      end
  end.

Definition calculate_optimal_font_size
    (font_path : font_handle) (initial_size target_size : Z) : M (Font * Z) :=
  let max_fit_size := target_size - 4 in
  r <- search_sizes font_path max_fit_size (range_down initial_size 4) ;;
  match r with
  | Some found => ret found
  | None =>
      try_except
        (match font_path with
         | FontPath path => font <- call (truetype path 8) ;; ret (font, 8)
         | FontObject font => ret (font, 8)
         end)
        (fun _ => font <- call load_default ;; ret (font, 8))
  end.

(** *** generate_sprite_sheet (lines 120-223) *)

(** The body of the [for i, char in enumerate(character_set)] loop, on the
    image and the dict built so far: draw (lines 158-172), then record the
    metadata. *)
Definition render_char (font : Font) (columns img_width img_height : Z)
    (st : Canvas * gmap ascii Glyph.t) (i : Z) (char : ascii)
  : M (Canvas * gmap ascii Glyph.t) :=
  let '(img, character_map) := st in
  let center_x := (i `mod` columns) * CELL_SIZE + CELL_SIZE `div` 2 in
  let center_y := (i `div` columns) * CELL_SIZE + CELL_SIZE `div` 2 in
  img' <- try_except
            (call (draw_text img center_x center_y char font))
            (fun _ => emit (Print (CouldNotRender char)) ;;; ret img) ;;
  entry <- arith (cell_glyph columns img_width img_height i) ;;
  ret (img', <[char := entry]> character_map).

Fixpoint render_chars (font : Font) (columns img_width img_height : Z)
    (i : Z) (chars : list ascii) (st : Canvas * gmap ascii Glyph.t)
  : M (Canvas * gmap ascii Glyph.t) :=
  match chars with
  | [] => ret st
  | char :: rest =>
      st' <- render_char font columns img_width img_height st i char ;;
      render_chars font columns img_width img_height (i + 1) rest st'
  end.

(** The result is what lines 191-221 write into [output_dir]: the image
    saved as PNG and the metadata dumped as JSON. *)
Definition generate_sprite_sheet
    (font_name : string) (font_size : Z) (character_set : string) (columns : Z)
  : M (Canvas * Metadata.t) :=
  font_path <- find_system_font font_name ;;
  fitted <- calculate_optimal_font_size font_path font_size CELL_SIZE ;;
  let '(font, actual_size) := fitted in
  let num_chars := Z.of_nat (String.length character_set) in
  geometry <- arith (grid_geometry num_chars columns) ;;
  let '(rows, img_width, img_height) := geometry in
  img <- call (image_new img_width img_height) ;;
  rendered <- render_chars font columns img_width img_height 0
                (list_ascii_of_string character_set) (img, ∅) ;;
  let '(img, character_map) := rendered in
  ret (img,
       Metadata.mk font_name actual_size CELL_SIZE CELL_SIZE columns rows
         img_width img_height num_chars character_map).

(** *** Notions used to state the properties *)

(** The font that candidate [size] yields when it loads, measures and fits
    (the [return font, size] of line 104). *)
Definition fit_at (path : string) (max_fit_size size : Z) : option Font :=
  font ← truetype path size;
  box ← measure font;
  if (box.1 <=? max_fit_size) && (box.2 <=? max_fit_size) then Some font else None.

(** Width and height of the box [textbbox] returns. *)
Definition box_width (box : Z * Z * Z * Z) : Z :=
  let '(x0, _, x1, _) := box in x1 - x0.
Definition box_height (box : Z * Z * Z * Z) : Z :=
  let '(_, y0, _, y1) := box in y1 - y0.

End Generator.

Arguments font_handle : clear implicits.

Definition is_digit (c : ascii) : bool :=
  let n := N_of_ascii c in ((48 <=? n) && (n <=? 57))%N.

Definition is_upper (c : ascii) : bool :=
  let n := N_of_ascii c in ((65 <=? n) && (n <=? 90))%N.

Definition is_lower (c : ascii) : bool :=
  let n := N_of_ascii c in ((97 <=? n) && (n <=? 122))%N.

(** The lower-case letters that reach below the baseline. *)
Definition is_descender (c : ascii) : bool :=
  bool_decide (c ∈ ["g"; "j"; "p"; "q"; "y"]%char).

(** ** The measurements of a candidate size *)

(** The boxes of a candidate size, when the font loads and every probe
    glyph can be measured. *)
Definition measured `{Platform Font Canvas} (path : string) (size : Z) : option (Z * Z) :=
  font ← truetype path size; measure font.

Definition unmeasurable `{Platform Font Canvas} (path : string) (size : Z) : bool :=
  match measured path size with
  | Some _ => false
  | None => true
  end.

(** The warnings of lines 106-108 for the candidates [sizes]: one for each
    size at which loading or measuring raises. *)
Definition load_warnings `{Platform Font Canvas} (path : string) (sizes : list Z)
  : list event :=
  map (fun s => Print (CouldNotLoad s)) (List.filter (unmeasurable path) sizes).

(** ** Output files (lines 191-223) *)

(** [s.replace(old, new)] for one-character [old] and [new]. *)
Fixpoint str_replace (old new : ascii) (s : string) : string :=
  match s with
  | EmptyString => EmptyString
  | String c rest =>
      String (if Ascii.eqb c old then new else c) (str_replace old new rest)
  end.

(** Lines 195-197.  [pretty] prints an integer as [str] does: decimal
    digits, with a leading minus sign below zero. *)
Definition base_name (font_name : string) (actual_size : Z) : string :=
  str_replace " " "_" font_name +:+ "_" +:+ pretty actual_size.

Definition image_filename (font_name : string) (actual_size : Z) : string :=
  base_name font_name actual_size +:+ ".sheet.png".

Definition json_filename (font_name : string) (actual_size : Z) : string :=
  base_name font_name actual_size +:+ ".sheet.json".

(** The file system the sheet is written to.  [false] stands for a raised
    exception.  As for [Platform], the answers are those of one run: they do
    not change between the turns of a batch. *)
Class Storage (Canvas : Type) : Type := {
  os_path_join : string → string → string;  (* os.path.join *)
  mkdir : string → bool;       (* Path(dir).mkdir(parents=True, exist_ok=True) *)
  save : Canvas → string → bool;            (* img.save(path, 'PNG') *)
  dump : Metadata.t → string → bool         (* open(path, 'w', ..) and json.dump *)
}.

(** How a run that writes files ends other than by returning. *)
Inductive failure : Type :=
| Raised (e : exn)   (* an exception of the generation *)
| OSError.           (* any exception raised while writing *)

(** The lines [main] prints. *)
Inductive line : Type :=
| Banner (font : string)
| CharacterCount (n : nat)
| CellLine
| OutputLine (dir : string)
| Blank
| Generating (size : Z)
| Created (path : string)
| Failed (size : Z) (e : failure)
| Done.

(** What a run does, in order: the events of the generation, the writes
    that succeeded and the lines of [main]. *)
Inductive action (Canvas : Type) : Type :=
| Core (e : event)
| Mkdir (dir : string)
| Save (path : string) (img : Canvas)
| Dump (path : string) (md : Metadata.t)
| Say (l : line).

Arguments Core {Canvas} e.
Arguments Mkdir {Canvas} dir.
Arguments Save {Canvas} path img.
Arguments Dump {Canvas} path md.
Arguments Say {Canvas} l.

(** The parsed command line (lines 227-266). *)
Module Args.
Record t : Type := mk {
  font : string;
  size : Z;
  sizes : option (list Z);
  output : string;
  columns : Z;
  characters : option string }.
End Args.

(** Line 269: [args.sizes if args.sizes else [args.size]]. *)
Definition effective_sizes (a : Args.t) : list Z :=
  match Args.sizes a with
  | Some (s :: rest) => s :: rest
  | _ => [Args.size a]
  end.

(** Line 272: [args.characters if args.characters else DEFAULT_CHARACTER_SET]. *)
Definition effective_characters (a : Args.t) : string :=
  match Args.characters a with
  | Some (String c rest) => String c rest
  | _ => DEFAULT_CHARACTER_SET
  end.

(** The standard output.  The lines that report the outcome of an attempt
    begin with a check mark or a cross (lines 290, 291 and 294); where the
    encoding of the output lacks them, [print] raises UnicodeEncodeError
    before it writes anything.  The other lines are taken to print. *)
Class Console : Type := { encodes_marks : bool }.

(** How [main] ends. *)
Inductive ending : Type :=
| Returns
| UnicodeEncodeError.  (* raised by line 294, inside the handler *)

(** The paths reported as created. *)
Definition created {Canvas} (t : list (action Canvas)) : list string :=
  omap (fun a => match a with Say (Created p) => Some p | _ => None end) t.

(** Lines 274-278. *)
Definition header {Canvas} (a : Args.t) : list (action Canvas) :=
  [Say (Banner (Args.font a));
   Say (CharacterCount (String.length (effective_characters a)));
   Say CellLine;
   Say (OutputLine (Args.output a));
   Say Blank].

(** Lines 290-291 and 294: the lines that report an attempt. *)
Definition report {Canvas} (size : Z) (r : failure + string * string)
  : list (action Canvas) :=
  match r with
  | inr (image_path, json_path) =>
      [Say (Created image_path); Say (Created json_path)]
  | inl e => [Say (Failed size e)]
  end.

(** An action other than a line of [main]. *)
Definition quiet {Canvas} (a : action Canvas) : Prop := ∀ l, a ≠ Say l.

Section Writer.

Context {Font Canvas : Type} {P : Platform Font Canvas} {D : Storage Canvas}
  {O : Console}.

(** [generate_sprite_sheet] with its [output_dir]: lines 120-223 in full. *)
Definition generate_sprite_sheet_files
    (font_name : string) (font_size : Z) (output_dir : string)
    (character_set : string) (columns : Z)
  : (failure + string * string) * list (action Canvas) :=
  match generate_sprite_sheet font_name font_size character_set columns with
  | (inl e, t) => (inl (Raised e), map Core t)
  | (inr (img, md), t) =>
      let actual_size := Metadata.font_size md in
      if mkdir output_dir then
        let image_path :=
          os_path_join output_dir (image_filename font_name actual_size) in
        let json_path :=
          os_path_join output_dir (json_filename font_name actual_size) in
        if save img image_path then
          if dump md json_path then
            (inr (image_path, json_path),
             map Core t
             ++ [Mkdir output_dir; Save image_path img; Dump json_path md])
          else (inl OSError, map Core t ++ [Mkdir output_dir; Save image_path img])
        else (inl OSError, map Core t ++ [Mkdir output_dir])
      else (inl OSError, map Core t)
  end.

(** Lines 281-296: one turn of the loop of [main]; [except Exception]
    catches whatever the generation raises.  Where the output cannot encode
    the marks, the line that reports the attempt raises: after a success
    inside the [try], which leads to the handler, and in the handler in any
    case, which ends [main].  The traceback goes to the standard error
    stream and is left out. *)
Definition attempt (a : Args.t) (character_set : string) (size : Z)
  : ending * list (action Canvas) :=
  let '(r, t) :=
    generate_sprite_sheet_files (Args.font a) size (Args.output a)
      character_set (Args.columns a) in
  if encodes_marks
  then (Returns, Say (Generating size) :: t ++ report size r)
  else (UnicodeEncodeError, Say (Generating size) :: t).

Fixpoint attempts (a : Args.t) (character_set : string) (sizes : list Z)
  : ending * list (action Canvas) :=
  match sizes with
  | [] => (Returns, [])
  | size :: rest =>
      match attempt a character_set size with
      | (Returns, t) =>
          let '(e, t') := attempts a character_set rest in (e, t ++ t')
      | (UnicodeEncodeError, t) => (UnicodeEncodeError, t)
      end
  end.

(** Lines 268-299, after the command line is parsed. *)
Definition main (a : Args.t) : ending * list (action Canvas) :=
  match attempts a (effective_characters a) (effective_sizes a) with
  | (Returns, t) => (Returns, header a ++ t ++ [Say Blank; Say Done])
  | (UnicodeEncodeError, t) => (UnicodeEncodeError, header a ++ t)
  end.



End Writer.

(** ** Platforms to run the model on

    A font is its file and size, a canvas the list of the glyphs drawn on
    it with their anchor points. *)

Definition toy_font : Type := string * Z.
Definition toy_canvas : Type := list (Z * Z * ascii).

Definition toy_image_new (w h : Z) : option toy_canvas :=
  if (0 <=? w) && (0 <=? h) then Some [] else None.

(** One font file, in the third place [find_system_font] looks; every glyph
    is [size] wide and [size + 2] high; "B" cannot be drawn. *)
Definition mono_platform : Platform toy_font toy_canvas := {|
  path_exists p := String.eqb p "/usr/share/fonts/TTF/Mono.ttf";
  load_default := Some ("default", 10);
  truetype p s := Some (p, s);
  textbbox f c := Some (0, 0, f.2, f.2 + 2);
  image_new := toy_image_new;
  draw_text img cx cy c f :=
    if Ascii.eqb c "B" then None else Some (img ++ [(cx, cy, c)]) |}.

(** No font file at all, and a default font. *)
Definition bare_platform : Platform toy_font toy_canvas := {|
  path_exists p := false;
  load_default := Some ("default", 10);
  truetype p s := None;
  textbbox f c := Some (0, 0, 6, 11);
  image_new := toy_image_new;
  draw_text img cx cy c f := Some (img ++ [(cx, cy, c)]) |}.


(** An extended face: every glyph is [2 * size] wide and [size] high. *)
Definition extended_platform : Platform toy_font toy_canvas := {|
  path_exists p := String.eqb p "Extended.ttf";
  load_default := Some ("default", 10);
  truetype p s := Some (p, s);
  textbbox f c := Some (0, 0, 2 * f.2, f.2);
  image_new := toy_image_new;
  draw_text img cx cy c f := Some (img ++ [(cx, cy, c)]) |}.

(** [posixpath.join] of two components. *)
Definition posix_join (a b : string) : string :=
  match b with
  | String "/" _ => b
  | _ =>
      match String.rev a with
      | EmptyString => b
      | String "/" _ => a +:+ b
      | _ => a +:+ "/" +:+ b
      end
  end.

(** A file system that accepts every write. *)
Definition posix_storage : Storage toy_canvas := {|
  os_path_join := posix_join;
  mkdir dir := true;
  save img path := true;
  dump md path := true |}.

(** An output in UTF-8, and one in ASCII. *)
Definition utf8_console : Console := {| encodes_marks := true |}.
Definition ascii_console : Console := {| encodes_marks := false |}.

(** A file system on which JSON files cannot be written. *)
Definition png_only_storage : Storage toy_canvas := {|
  os_path_join := posix_join;
  mkdir dir := true;
  save img path := true;
  dump md path := false |}.

(** * Properties *)

(** ** Rounding and the float quotient *)

Lemma rne_cases (n d : Z) :
  0 < d →
  (rne n d = n `div` d ∧ 2 * (n `mod` d) ≤ d) ∨
  (rne n d = n `div` d + 1 ∧ d ≤ 2 * (n `mod` d)).
Proof.
  intros Hd. unfold rne.
  destruct (Z.compare_spec (2 * (n `mod` d)) d) as [He|Hl|Hg].
  - destruct (Z.even (n `div` d)); [left | right]; split; lia.
  - left; split; lia.
  - right; split; lia.
Qed.

Lemma rne_error (n d : Z) :
  0 < d → 2 * Z.abs (rne n d * d - n) ≤ d.
Proof.
  intros Hd.
  pose proof (Z.div_mod n d ltac:(lia)) as Hdm.
  pose proof (Z.mod_pos_bound n d Hd) as Hr.
  destruct (rne_cases n d Hd) as [[-> H]|[-> H]]; nia.
Qed.

Lemma rne_exact (k d : Z) : 0 < d → rne (k * d) d = k.
Proof.
  intros Hd. unfold rne.
  rewrite Z.div_mul, Z.mod_mul by lia.
  destruct (Z.compare_spec (2 * 0) d); lia.
Qed.

Lemma rne_mono (n1 n2 d : Z) :
  0 < d → n1 ≤ n2 → rne n1 d ≤ rne n2 d.
Proof.
  intros Hd Hn.
  pose proof (Z.div_le_mono n1 n2 d Hd Hn) as Hq.
  pose proof (Z.div_mod n1 d ltac:(lia)) as H1.
  pose proof (Z.div_mod n2 d ltac:(lia)) as H2.
  pose proof (Z.mod_pos_bound n1 d Hd) as Hr1.
  pose proof (Z.mod_pos_bound n2 d Hd) as Hr2.
  destruct (Z.eq_dec (n1 `div` d) (n2 `div` d)) as [Heq|Hne].
  - assert (n1 `mod` d ≤ n2 `mod` d) by nia.
    unfold rne. rewrite <- Heq.
    destruct (Z.compare_spec (2 * (n1 `mod` d)) d),
             (Z.compare_spec (2 * (n2 `mod` d)) d);
      destruct (Z.even (n1 `div` d)); lia.
  - destruct (rne_cases n1 d Hd) as [[-> _]|[-> _]],
             (rne_cases n2 d Hd) as [[-> _]|[-> _]]; lia.
Qed.

Lemma scale_identity (e : Z) :
  0 < 2 ^ Z.max 0 e ∧ 0 < 2 ^ Z.max 0 (- e).
Proof. split; apply Z.pow_pos_nonneg; lia. Qed.

(** The two scale factors of an exponent differ by [2 ^ e]. *)
Lemma scale_shift (e : Z) :
  2 * 2 ^ Z.max 0 e * 2 ^ Z.max 0 (- (e + 1))
  = 2 ^ Z.max 0 (e + 1) * 2 ^ Z.max 0 (- e).
Proof.
  destruct (Z_lt_le_dec e 0) as [Hn|Hp].
  - rewrite (Z.max_l 0 e), (Z.max_l 0 (e + 1)) by lia.
    rewrite (Z.max_r 0 (- (e + 1))), (Z.max_r 0 (- e)) by lia.
    replace (- e) with (Z.succ (- (e + 1))) by lia.
    rewrite Z.pow_succ_r by lia. simpl. lia.
  - rewrite (Z.max_r 0 e), (Z.max_r 0 (e + 1)) by lia.
    rewrite (Z.max_l 0 (- (e + 1))), (Z.max_l 0 (- e)) by lia.
    replace (e + 1) with (Z.succ e) by lia.
    rewrite Z.pow_succ_r by lia. simpl. lia.
Qed.

Lemma scale_log (la lb : Z) :
  0 ≤ la → 0 ≤ lb →
  2 ^ la * 2 ^ Z.max 0 (- (la - lb - 52))
  = 2 ^ 52 * 2 ^ lb * 2 ^ Z.max 0 (la - lb - 52).
Proof.
  intros Ha Hb.
  destruct (Z_lt_le_dec (la - lb - 52) 0) as [Hn|Hp].
  - rewrite (Z.max_r 0 (- (la - lb - 52))), (Z.max_l 0 (la - lb - 52)) by lia.
    rewrite <- !Z.pow_add_r by lia. f_equal. lia.
  - rewrite (Z.max_l 0 (- (la - lb - 52))), (Z.max_r 0 (la - lb - 52)) by lia.
    rewrite <- !Z.pow_add_r by lia. f_equal. lia.
Qed.

Lemma fl_quot_range (a b : Z) :
  0 < a → 0 < b →
  let f := fl_quot a b in
  mant f = rne (scaled_num a (expo f)) (scaled_den b (expo f)) ∧
  2 ^ 52 * scaled_den b (expo f) ≤ scaled_num a (expo f) ∧
  scaled_num a (expo f) < 2 ^ 53 * scaled_den b (expo f).
Proof.
  intros Ha Hb. unfold fl_quot. simpl.
  set (e1 := Z.log2 a - Z.log2 b - 52).
  pose proof (Z.log2_spec a Ha) as [Hal Hau].
  pose proof (Z.log2_spec b Hb) as [Hbl Hbu].
  pose proof (Z.log2_nonneg a) as Hla. pose proof (Z.log2_nonneg b) as Hlb.
  pose proof (scale_log (Z.log2 a) (Z.log2 b) Hla Hlb) as Hs. fold e1 in Hs.
  rewrite Z.pow_succ_r in Hau, Hbu by lia.
  destruct (scale_identity e1) as [HR HP].
  set (R := 2 ^ Z.max 0 e1) in *. set (Pw := 2 ^ Z.max 0 (- e1)) in *.
  assert (H51 : 2 ^ 51 * (b * R) < a * Pw).
  { assert (2 ^ Z.log2 a * Pw ≤ a * Pw) by nia.
    assert (2 * (2 ^ 51 * (b * R)) < 2 * (2^Z.log2 a * Pw)); [|lia].
    rewrite Hs. change (2^52) with (2 * 2^51). nia. }
  assert (H53 : a * Pw < 2 ^ 53 * (b * R)).
  { assert (a * Pw < 2 * 2 ^ Z.log2 a * Pw) by nia.
    assert (2 * (2 ^ Z.log2 a * Pw) ≤ 2 ^ 53 * (b * R)); [|lia].
    rewrite Hs. change (2^53) with (2 * 2^52). nia. }
  unfold scaled_num, scaled_den. fold R Pw.
  destruct (Z.leb_spec (2 ^ 52 * (b * R)) (a * Pw)) as [Hge|Hlt].
  - split; [reflexivity|]. fold R Pw. lia.
  - split; [reflexivity|].
    pose proof (scale_shift (e1 - 1)) as Hsh.
    replace (e1 - 1 + 1) with e1 in Hsh by lia. fold R Pw in Hsh.
    destruct (scale_identity (e1 - 1)) as [HR' HP'].
    set (R' := 2 ^ Z.max 0 (e1 - 1)) in *.
    set (P' := 2 ^ Z.max 0 (- (e1 - 1))) in *.
    (* a*P'/(b*R') = 2 * a*Pw/(b*R): 2*R'*Pw = R*P' *)
    split.
    + assert (2^52 * (b * R') * (R * Pw) ≤ a * P' * (R * Pw)); [|nia].
      replace (a * P' * (R * Pw)) with (a * Pw * (R * P')) by ring.
      rewrite <- Hsh. change (2^52) with (2 * 2^51). nia.
    + assert (a * P' * (R * Pw) < 2^53 * (b * R') * (R * Pw)); [|nia].
      replace (a * P' * (R * Pw)) with (a * Pw * (R * P')) by ring.
      rewrite <- Hsh. change (2^53) with (2 * 2^52). nia.
Qed.

Lemma ceil_floor_spec (m p : Z) :
  0 < p → (- ((- m) `div` p) - 1) * p < m ∧ m ≤ - ((- m) `div` p) * p.
Proof.
  intros Hp.
  pose proof (Z.div_mod (- m) p ltac:(lia)).
  pose proof (Z.mod_pos_bound (- m) p Hp). nia.
Qed.

(** [math.ceil(n / c)] is the exact ceiling as long as [n] is below 2^53. *)
Lemma math_ceil_true_div (n c : Z) :
  0 ≤ n < 2 ^ 53 → 1 ≤ c →
  ∃ q, true_div n c = Some q ∧
       (math_ceil q - 1) * c < n ∧ n ≤ math_ceil q * c.
Proof.
  intros [Hn0 Hn] Hc. unfold true_div.
  destruct (Z.eqb_spec c 0) as [?|_]; [lia|].
  destruct (Z.eqb_spec n 0) as [->|Hnz].
  - eexists; split; [reflexivity|]. vm_compute math_ceil. lia.
  - eexists; split; [reflexivity|].
    rewrite (Z.abs_eq n), (Z.abs_eq c) by lia.
    rewrite (Z.sgn_pos n), (Z.sgn_pos c) by lia.
    destruct (fl_quot_range n c ltac:(lia) ltac:(lia)) as (Hm & Hlo & Hhi).
    set (f := fl_quot n c) in *.
    unfold math_ceil; cbn [mant expo].
    unfold scaled_num, scaled_den in *.
    rewrite Z.opp_involutive.
    destruct (scale_identity (expo f)) as [HR HP].
    assert (He : expo f ≤ 0).
    { destruct (Z_lt_le_dec 0 (expo f)) as [Hpos|]; [|lia]. exfalso.
      rewrite (Z.max_l 0 (- expo f)) in Hlo by lia.
      assert (2 ^ 1 ≤ 2 ^ Z.max 0 (expo f)) by (apply Z.pow_le_mono_r; lia).
      change (2 ^ 1) with 2 in *. change (2 ^ 0) with 1 in *. nia. }
    rewrite (Z.max_l 0 (expo f)) in * by lia.
    change (2 ^ 0) with 1 in *.
    set (Pw := 2 ^ Z.max 0 (- expo f)) in *.
    rewrite !Z.mul_1_l, !Z.mul_1_r in *.
    assert (HPc : c < 2 * Pw) by nia.
    pose proof (ceil_floor_spec (mant f) Pw HP) as [Hc1 Hc2].
    set (C := - (- mant f) `div` Pw) in *.
    pose proof (rne_error (n * Pw) c ltac:(lia)) as Herr. rewrite <- Hm in Herr.
    split.
    + destruct (Z_lt_le_dec ((C - 1) * c) n) as [|Hle]; [assumption|]. exfalso.
      assert (Hmono : mant f ≤ (C - 1) * Pw).
      { rewrite Hm, <- (rne_exact ((C - 1) * Pw) c) by lia.
        apply rne_mono; [lia|]. nia. }
      lia.
    + destruct (Z_le_gt_dec n (C * c)) as [|Hgt]; [assumption|]. exfalso.
      assert (C * c * Pw + Pw ≤ n * Pw) by nia.
      assert (mant f * c ≤ C * Pw * c) by nia.
      lia.
Qed.

(** [round(a / b, 6)], in millionths, is within half a millionth (and a
    2^-53 share of a million) of [a / b]. *)
Lemma round6_true_div (a b : Z) :
  0 ≤ a ≤ b → 0 < b →
  ∃ q, true_div a b = Some q ∧
       2 ^ 53 * Z.abs (round6 q * b - 1000000 * a) ≤ b * (2 ^ 52 + 1000000).
Proof.
  intros [Ha0 Hab] Hb. unfold true_div.
  destruct (Z.eqb_spec b 0) as [?|_]; [lia|].
  destruct (Z.eqb_spec a 0) as [->|Hnz].
  - eexists; split; [reflexivity|]. vm_compute round6. lia.
  - eexists; split; [reflexivity|].
    rewrite (Z.abs_eq a), (Z.abs_eq b) by lia.
    rewrite (Z.sgn_pos a), (Z.sgn_pos b) by lia.
    destruct (fl_quot_range a b ltac:(lia) ltac:(lia)) as (Hm & Hlo & Hhi).
    set (f := fl_quot a b) in *.
    unfold round6; cbn [mant expo].
    unfold scaled_num, scaled_den in *.
    rewrite Z.opp_involutive.
    destruct (scale_identity (expo f)) as [HR HP].
    assert (He : expo f ≤ 0).
    { destruct (Z_lt_le_dec 0 (expo f)) as [Hpos|]; [|lia]. exfalso.
      rewrite (Z.max_l 0 (- expo f)) in Hlo by lia.
      change (2 ^ 0) with 1 in *. nia. }
    rewrite (Z.max_l 0 (expo f)) in * by lia.
    change (2 ^ 0) with 1 in *.
    set (Pw := 2 ^ Z.max 0 (- expo f)) in *.
    rewrite !Z.mul_1_l, !Z.mul_1_r in *.
    assert (HP52 : 2 ^ 52 ≤ Pw) by nia.
    pose proof (rne_error (a * Pw) b ltac:(lia)) as Hea. rewrite <- Hm in Hea.
    pose proof (rne_error (mant f * 1000000) Pw HP) as Hek.
    set (k := rne (mant f * 1000000) Pw) in *.
    assert (Hsum : 2 * Pw * Z.abs (k * b - 1000000 * a) ≤ b * (Pw + 1000000)) by nia.
    set (X := Z.abs (k * b - 1000000 * a)) in *.
    assert (0 ≤ X) by (apply Z.abs_nonneg).
    change (2 ^ 53) with (2 * 2 ^ 52). change (2 ^ 52) with 4503599627370496 in *.
    nia.
Qed.

(** ** The effect monad *)

Lemma outcome_bind {A B} (m : M A) (k : A → M B) :
  outcome (bind m k)
  = match outcome m with
    | inl e => inl e
    | inr a => outcome (k a)
    end.
Proof.
  destruct m as [[e|a] t]; simpl; [reflexivity|].
  unfold outcome. simpl. destruct (k a). reflexivity.
Qed.

Lemma outcome_try_except {A} (body : M A) (handler : exn → M A) :
  outcome (try_except body handler)
  = match outcome body with
    | inl e => outcome (handler e)
    | inr a => inr a
    end.
Proof.
  destruct body as [[e|a] t]; simpl; [|reflexivity].
  unfold outcome. simpl. destruct (handler e). reflexivity.
Qed.

(** ** [range(start, stop, -1)] *)

Lemma range_down_nil (a b : Z) : a ≤ b → range_down a b = [].
Proof.
  intros H. unfold range_down. replace (Z.to_nat (a - b)) with 0%nat by lia.
  reflexivity.
Qed.

Lemma range_down_cons (a b : Z) :
  b < a → range_down a b = a :: range_down (a - 1) b.
Proof.
  intros H. unfold range_down.
  replace (Z.to_nat (a - b)) with (S (Z.to_nat (a - 1 - b))) by lia.
  simpl seq. simpl map. f_equal; [lia|].
  rewrite <- seq_shift, map_map. apply map_ext. intros k. lia.
Qed.

Lemma elem_of_range_down (a b s : Z) : s ∈ range_down a b ↔ b < s ≤ a.
Proof.
  unfold range_down. rewrite list_elem_of_In, in_map_iff. split.
  - intros (k & <- & Hk). apply in_seq in Hk. lia.
  - intros Hs. exists (Z.to_nat (a - s)). split; [lia|]. apply in_seq. lia.
Qed.

Lemma range_down_split (a b s : Z) :
  b < s ≤ a → range_down a b = range_down a s ++ s :: range_down (s - 1) b.
Proof.
  intros Hs. remember (Z.to_nat (a - s)) as n eqn:Hn.
  revert a Hs Hn. induction n as [|n IH]; intros a Hs Hn.
  - assert (a = s) as -> by lia.
    rewrite (range_down_nil s s) by lia. simpl. apply range_down_cons. lia.
  - rewrite (range_down_cons a b), (range_down_cons a s) by lia.
    simpl. f_equal. apply IH; lia.
Qed.

Lemma range_down_sorted (a b : Z) :
  StronglySorted (fun s s' => s' < s) (range_down a b).
Proof.
  remember (Z.to_nat (a - b)) as n eqn:Hn.
  revert a Hn. induction n as [|n IH]; intros a Hn.
  - rewrite range_down_nil by lia. constructor.
  - rewrite range_down_cons by lia. constructor.
    + apply IH. lia.
    + apply Forall_forall. intros s Hs. apply elem_of_range_down in Hs. lia.
Qed.

(** ** Fitting the size *)

Section Fitter.

Context {Font Canvas : Type} {P : Platform Font Canvas}.

Lemma fit_at_spec (path : string) (max_fit_size size : Z) (font : Font) :
  fit_at path max_fit_size size = Some font ↔
  truetype path size = Some font ∧
  ∃ w h, measure font = Some (w, h) ∧ w ≤ max_fit_size ∧ h ≤ max_fit_size.
Proof.
  unfold fit_at. destruct (truetype path size) as [f|]; simpl.
  - destruct (measure f) as [[w h]|] eqn:Hm; simpl.
    + destruct (Z.leb_spec w max_fit_size), (Z.leb_spec h max_fit_size); simpl;
        split; try (intros [= <-]; split; [reflexivity|]; exists w, h; now rewrite Hm);
        try discriminate;
        intros ([= <-] & w' & h' & Hm' & ? & ?); rewrite Hm in Hm';
        injection Hm' as <- <-; try reflexivity; lia.
    + split; [discriminate|]. intros ([= <-] & w & h & Hm' & _). congruence.
  - split; [discriminate|]. intros ([=] & _).
Qed.

(** The measuring loop ends within a limit exactly when its starting maxima
    and the box of every character are within it. *)
Lemma measure_chars_fit (font : Font) (chars : list ascii) (acc : Z * Z) (limit : Z) :
  (∃ w h, measure_chars font acc chars = Some (w, h) ∧ w ≤ limit ∧ h ≤ limit) ↔
  acc.1 ≤ limit ∧ acc.2 ≤ limit
  ∧ ∀ c, c ∈ chars →
         ∃ box, textbbox font c = Some box
                ∧ box_width box ≤ limit ∧ box_height box ≤ limit.
Proof.
  revert acc. induction chars as [|c chars IH]; intros [mw mh]; simpl.
  - split.
    + intros (w & h & [= <- <-] & Hw & Hh). repeat split; try assumption.
      intros c Hc. inversion Hc.
    + intros (Hw & Hh & _). exists mw, mh. auto.
  - unfold measure_char.
    destruct (textbbox font c) as [[[[x0 y0] x1] y1]|] eqn:Hbox; simpl.
    + split.
      * intros Hfit. apply IH in Hfit as (Hw & Hh & Hrest). simpl in Hw, Hh.
        split; [lia|]. split; [lia|].
        intros c' Hc'. apply elem_of_cons in Hc' as [->|Hc']; [|auto].
        exists (x0, y0, x1, y1). split; [assumption|]. simpl. lia.
      * intros (Hw & Hh & Hall). apply IH. simpl.
        destruct (Hall c (list_elem_of_here _ _)) as (box & Hb & Hbw & Hbh).
        rewrite Hbox in Hb. injection Hb as <-. simpl in Hbw, Hbh.
        split; [lia|]. split; [lia|].
        intros c' Hc'. apply Hall. now apply list_elem_of_further.
    + split.
      * intros (w & h & [=] & _).
      * intros (_ & _ & Hall).
        destruct (Hall c (list_elem_of_here _ _)) as (box & Hb & _). congruence.
Qed.

(** A candidate size fits exactly when the font loads, the scratch image
    can be made and every probe glyph has a box within the limit. *)
Lemma fit_at_glyphs (path : string) (limit size : Z) (font : Font) :
  0 ≤ limit →
  fit_at path limit size = Some font ↔
  truetype path size = Some font
  ∧ (∃ img, image_new 100 100 = Some img)
  ∧ ∀ c, c ∈ probe_chars →
         ∃ box, textbbox font c = Some box
                ∧ box_width box ≤ limit ∧ box_height box ≤ limit.
Proof.
  intros Hlimit. split.
  - intros Hfit. apply fit_at_spec in Hfit as (Hload & w & h & Hm & Hw & Hh).
    split; [assumption|]. unfold measure in Hm.
    destruct (image_new 100 100) as [img|]; [|discriminate].
    split; [eauto|].
    apply (proj1 (measure_chars_fit font probe_chars (0, 0) limit)). eauto.
  - intros (Hload & (img & Himg) & Hall). apply fit_at_spec.
    split; [assumption|]. unfold measure. rewrite Himg.
    apply (proj2 (measure_chars_fit font probe_chars (0, 0) limit)). simpl. auto.
Qed.

(** One candidate size of a font file: its outcome is [fit_at]. *)
Lemma try_size_path (path : string) (max_fit_size size : Z) :
  outcome (try_size (FontPath path) max_fit_size size)
  = inr ((fun font => (font, size)) <$> fit_at path max_fit_size size).
Proof.
  unfold try_size, fit_at. rewrite outcome_try_except, outcome_bind.
  destruct (truetype path size) as [font|]; simpl; [|reflexivity].
  rewrite outcome_bind.
  destruct (measure font) as [[w h]|]; simpl; [|reflexivity].
  destruct ((w <=? max_fit_size) && (h <=? max_fit_size)); reflexivity.
Qed.

Lemma search_sizes_miss (path : string) (max_fit_size : Z) (sizes : list Z) :
  (∀ s, s ∈ sizes → fit_at path max_fit_size s = None) →
  outcome (search_sizes (FontPath path) max_fit_size sizes) = inr None.
Proof.
  induction sizes as [|s sizes IH]; intros Hmiss; [reflexivity|].
  simpl. rewrite outcome_bind, try_size_path.
  rewrite (Hmiss s) by apply list_elem_of_here. simpl.
  apply IH. intros s' Hs'. apply Hmiss. now apply list_elem_of_further.
Qed.

Lemma search_sizes_hit (path : string) (max_fit_size : Z)
    (before : list Z) (s : Z) (after : list Z) (font : Font) :
  (∀ s', s' ∈ before → fit_at path max_fit_size s' = None) →
  fit_at path max_fit_size s = Some font →
  outcome (search_sizes (FontPath path) max_fit_size (before ++ s :: after))
  = inr (Some (font, s)).
Proof.
  induction before as [|s0 before IH]; intros Hmiss Hfit; simpl.
  - rewrite outcome_bind, try_size_path, Hfit. reflexivity.
  - rewrite outcome_bind, try_size_path.
    rewrite (Hmiss s0) by apply list_elem_of_here. simpl.
    apply IH; [|assumption].
    intros s' Hs'. apply Hmiss. now apply list_elem_of_further.
Qed.

(** The search stops at the first size of the list that fits, if any. *)
Lemma search_sizes_first (path : string) (max_fit_size : Z) (sizes : list Z) :
  (∀ s, s ∈ sizes → fit_at path max_fit_size s = None)
  ∨ ∃ before s after font,
      sizes = before ++ s :: after
      ∧ (∀ s', s' ∈ before → fit_at path max_fit_size s' = None)
      ∧ fit_at path max_fit_size s = Some font.
Proof.
  induction sizes as [|s sizes IH].
  - left. intros s Hs. inversion Hs.
  - destruct (fit_at path max_fit_size s) as [font|] eqn:Hs.
    + right. exists [], s, sizes, font. repeat split; [|assumption].
      intros s' Hs'. inversion Hs'.
    + destruct IH as [Hmiss|(before & s1 & after & font & -> & Hmiss & Hfit)].
      * left. intros s' Hs'. apply elem_of_cons in Hs' as [->|Hs']; auto.
      * right. exists (s :: before), s1, after, font. repeat split; [|assumption].
        intros s' Hs'. apply elem_of_cons in Hs' as [->|Hs']; auto.
Qed.

Lemma fallback_outcome (path : string) :
  outcome
    (try_except
       (font <- call (truetype path 8) ;; ret (font, 8))
       (fun _ => font <- call load_default ;; ret (font, 8)))
  = match truetype path 8 with
    | Some font => inr (font, 8)
    | None => match load_default with
              | Some font => inr (font, 8)
              | None => inl LibraryError
              end
    end.
Proof.
  rewrite outcome_try_except, outcome_bind.
  destruct (truetype path 8); simpl; [reflexivity|].
  rewrite outcome_bind. destruct load_default; reflexivity.
Qed.

(** C1.  For a font file the candidate sizes are [initial_size], ..., 5 in
    strictly decreasing order.  A candidate fits when the font loads at that
    size, the scratch image is created and every glyph of the probe set has
    a [textbbox] at most [CELL_SIZE - 4] wide and at most [CELL_SIZE - 4]
    high, that is when the probe set's maximum glyph width and maximum glyph
    height are both within the limit.  The result is the largest candidate that fits; when no
    candidate fits it is the font loaded at size 8, and the default font
    with size 8 when that load fails. *)
Theorem size_search (path : string) (initial_size : Z) :
  let sizes := range_down initial_size 4 in
  let max_fit_size := CELL_SIZE - 4 in
  let result := outcome (calculate_optimal_font_size (FontPath path) initial_size CELL_SIZE) in
  (∀ s, s ∈ sizes ↔ 5 ≤ s ≤ initial_size)
  ∧ StronglySorted (fun s s' => s' < s) sizes
  ∧ (∀ s font,
       fit_at path max_fit_size s = Some font ↔
       truetype path s = Some font
       ∧ (∃ img, image_new 100 100 = Some img)
       ∧ ∀ c, c ∈ probe_chars →
              ∃ box, textbbox font c = Some box
                     ∧ box_width box ≤ max_fit_size
                     ∧ box_height box ≤ max_fit_size)
  ∧ (∀ s font,
       5 ≤ s ≤ initial_size →
       fit_at path max_fit_size s = Some font →
       (∀ s', s < s' ≤ initial_size → fit_at path max_fit_size s' = None) →
       result = inr (font, s))
  ∧ ((∀ s, 5 ≤ s ≤ initial_size → fit_at path max_fit_size s = None) →
     result = match truetype path 8 with
              | Some font => inr (font, 8)
              | None => match load_default with
                        | Some font => inr (font, 8)
                        | None => inl LibraryError
                        end
              end).
Proof.
  intros sizes max_fit_size result.
  split; [|split; [|split; [|split]]].
  - intros s. unfold sizes. rewrite elem_of_range_down. lia.
  - apply range_down_sorted.
  - intros s font. apply fit_at_glyphs. unfold max_fit_size, CELL_SIZE. lia.
  - intros s font Hs Hfit Hlarger.
    unfold result, calculate_optimal_font_size. rewrite outcome_bind.
    rewrite (range_down_split initial_size 4 s) by lia.
    fold max_fit_size.
    rewrite (search_sizes_hit path max_fit_size _ s _ font); [reflexivity| |assumption].
    intros s' Hs'. apply elem_of_range_down in Hs'. apply Hlarger. lia.
  - intros Hmiss.
    unfold result, calculate_optimal_font_size. rewrite outcome_bind.
    fold max_fit_size.
    rewrite search_sizes_miss.
    + apply fallback_outcome.
    + intros s Hs. apply elem_of_range_down in Hs. apply Hmiss. lia.
Qed.

Lemma search_sizes_object (font : Font) (max_fit_size : Z) (sizes : list Z) :
  outcome (search_sizes (FontObject font) max_fit_size sizes)
  = inr (match sizes with [] => None | _ :: _ => Some (font, 10) end).
Proof. destruct sizes; reflexivity. Qed.


(** The measuring loop, seen as a whole: the running maxima of the widths
    and of the heights of the boxes, and nothing if one box fails. *)
Lemma measure_chars_boxes (font : Font) (chars : list ascii) (acc : Z * Z) :
  measure_chars font acc chars
  = boxes ← mapM (textbbox font) chars;
    Some (foldl Z.max acc.1 (box_width <$> boxes),
          foldl Z.max acc.2 (box_height <$> boxes)).
Proof.
  revert acc. induction chars as [|c chars IH]; intros [mw mh]; simpl.
  - reflexivity.
  - unfold measure_char.
    destruct (textbbox font c) as [[[[x0 y0] x1] y1]|]; simpl; [|reflexivity].
    rewrite IH. simpl.
    destruct (mapM (textbbox font) chars); reflexivity.
Qed.

Lemma foldl_max_bound (l : list Z) (a : Z) :
  a ≤ foldl Z.max a l ∧ ∀ z, z ∈ l → z ≤ foldl Z.max a l.
Proof.
  revert a. induction l as [|z0 l IH]; intros a; simpl.
  - split; [lia|]. intros z Hz. inversion Hz.
  - destruct (IH (Z.max a z0)) as [H1 H2]. split; [lia|].
    intros z Hz. apply elem_of_cons in Hz as [->|Hz]; [lia|auto].
Qed.

(** C7, as amended.  The probe set is the first ten characters of
    [test_chars], the capitals A to J: ten letters, no digit and no
    lower-case letter.  For a candidate size that loads, the fitter measures
    these ten with [textbbox], keeps the maxima of the widths and of the
    heights (starting from 0), and compares both with the limit. *)
Theorem probe_set (font : Font) :
  probe_chars = ["A"; "B"; "C"; "D"; "E"; "F"; "G"; "H"; "I"; "J"]%char
  ∧ Forall (fun c => is_upper c = true ∧ is_digit c = false) probe_chars
  ∧ measure font
    = (_ ← image_new 100 100;
       boxes ← mapM (textbbox font) probe_chars;
       Some (foldl Z.max 0 (box_width <$> boxes),
             foldl Z.max 0 (box_height <$> boxes)))
  ∧ (∀ boxes w h,
       mapM (textbbox font) probe_chars = Some boxes →
       measure font = Some (w, h) →
       0 ≤ w ∧ 0 ≤ h ∧
       ∀ box, box ∈ boxes → box_width box ≤ w ∧ box_height box ≤ h)
  ∧ (∀ path max_fit_size size,
       truetype path size = Some font →
       outcome (try_size (FontPath path) max_fit_size size)
       = inr (match measure font with
              | Some (w, h) =>
                  if (w <=? max_fit_size) && (h <=? max_fit_size)
                  then Some (font, size) else None
              | None => None
              end)).
Proof.
  assert (Hmeasure : measure font
    = (_ ← image_new 100 100;
       boxes ← mapM (textbbox font) probe_chars;
       Some (foldl Z.max 0 (box_width <$> boxes),
             foldl Z.max 0 (box_height <$> boxes)))).
  { unfold measure. destruct (image_new 100 100); simpl; [|reflexivity].
    apply (measure_chars_boxes font probe_chars (0, 0)). }
  split; [reflexivity|]. split; [|split; [exact Hmeasure|split]].
  - repeat constructor.
  - intros boxes w h Hboxes Hm. rewrite Hmeasure, Hboxes in Hm.
    destruct (image_new 100 100); simpl in Hm; [|discriminate].
    injection Hm as <- <-.
    destruct (foldl_max_bound (box_width <$> boxes) 0) as [Hw0 Hw].
    destruct (foldl_max_bound (box_height <$> boxes) 0) as [Hh0 Hh].
    split; [assumption|]. split; [assumption|].
    intros box Hbox. split; [apply Hw | apply Hh]; now apply list_elem_of_fmap_2.
  - intros path max_fit_size size Hload.
    rewrite try_size_path. unfold fit_at. rewrite Hload. simpl.
    destruct (measure font) as [[w h]|]; simpl; [|reflexivity].
    destruct ((w <=? max_fit_size) && (h <=? max_fit_size)); reflexivity.
Qed.

End Fitter.

(** ** Locating the font *)

Section Locator.

Context {Font Canvas : Type} {P : Platform Font Canvas}.

Lemma first_existing_hit (tried : list string) (path : string) (rest : list string) :
  (∀ p, p ∈ tried → path_exists p = false) →
  path_exists path = true →
  first_existing (tried ++ path :: rest)
  = (inr (Some path), map Probe tried ++ [Probe path]).
Proof.
  intros Hmiss Hhit. induction tried as [|p tried IH]; simpl.
  - unfold os_path_exists, bind, emit, ret. simpl. rewrite Hhit. reflexivity.
  - unfold os_path_exists, bind, emit, ret in *. simpl.
    rewrite (Hmiss p) by (apply list_elem_of_here).
    rewrite IH by (intros q Hq; apply Hmiss; now apply list_elem_of_further).
    reflexivity.
Qed.

Lemma first_existing_miss (paths : list string) :
  (∀ p, p ∈ paths → path_exists p = false) →
  first_existing paths = (inr None, map Probe paths).
Proof.
  intros Hmiss. induction paths as [|p paths IH]; simpl; [reflexivity|].
  unfold os_path_exists, bind, emit, ret in *. simpl.
  rewrite (Hmiss p) by (apply list_elem_of_here).
  rewrite IH by (intros q Hq; apply Hmiss; now apply list_elem_of_further).
  reflexivity.
Qed.

Lemma printed_probes (paths : list string) : printed (map Probe paths) = [].
Proof. induction paths as [|p paths IH]; [reflexivity|]. exact IH. Qed.

(** C8.  An existing [font_name] is returned at once, with no candidate
    probed.  Otherwise the candidates of [font_paths] are probed in order,
    up to the first that exists, which is returned.  When none exists one
    warning is printed and the default font is returned; the call raises
    only when the default font itself cannot be loaded. *)
Theorem find_system_font_resolution (font_name : string) :
  (path_exists font_name = true →
   find_system_font font_name = (inr (FontPath font_name), [Probe font_name]))
  ∧ (∀ tried path rest,
       path_exists font_name = false →
       font_paths font_name = tried ++ path :: rest →
       (∀ p, p ∈ tried → path_exists p = false) →
       path_exists path = true →
       find_system_font font_name
       = (inr (FontPath path), Probe font_name :: map Probe tried ++ [Probe path]))
  ∧ (path_exists font_name = false →
     (∀ p, p ∈ font_paths font_name → path_exists p = false) →
     printed (trace (find_system_font font_name)) = [FontNotFound font_name]
     ∧ probed (trace (find_system_font font_name)) = font_name :: font_paths font_name
     ∧ outcome (find_system_font font_name)
       = match load_default with
         | Some font => inr (FontObject font)
         | None => inl (ValueError ("Could not find font: " +:+ font_name))
         end).
Proof.
  split; [|split].
  - intros Hex. unfold find_system_font, os_path_exists, bind, emit, ret.
    simpl. rewrite Hex. reflexivity.
  - intros tried path rest Hno Hpaths Hmiss Hhit.
    unfold find_system_font. rewrite Hpaths.
    rewrite (first_existing_hit tried path rest Hmiss Hhit).
    unfold os_path_exists, bind, emit, ret. simpl. rewrite Hno.
    simpl. rewrite app_nil_r. reflexivity.
  - intros Hno Hmiss. unfold find_system_font.
    rewrite (first_existing_miss _ Hmiss).
    generalize (font_paths font_name) as paths. intros paths.
    assert (Hprobed : probed (map Probe paths) = paths).
    { induction paths as [|p paths IH]; simpl; [reflexivity|].
      unfold probed in *. simpl. now rewrite IH. }
    unfold os_path_exists, try_except, call, bind, emit, ret, raise, outcome, trace.
    simpl. rewrite Hno.
    destruct load_default as [font|]; simpl; rewrite ?app_nil_r;
      unfold printed, probed at 1; simpl; rewrite !omap_app; simpl;
      fold (printed (map Probe paths)); fold (probed (map Probe paths));
      rewrite printed_probes, Hprobed, app_nil_r; auto.
Qed.

End Locator.

(** ** The grid *)

Lemma bind_inr {A B} (m : M A) (k : A → M B) (b : B) (t : list event) :
  bind m k = (inr b, t) →
  ∃ a t1 t2, m = (inr a, t1) ∧ k a = (inr b, t2) ∧ t = t1 ++ t2.
Proof.
  destruct m as [[e|a] t1]; simpl; [discriminate|].
  destruct (k a) as [r t2] eqn:Hk. intros [= -> <-].
  exists a, t1, t2. auto.
Qed.

Lemma arith_inr {A} (o : option A) (a : A) (t : list event) :
  arith o = (inr a, t) → o = Some a ∧ t = [].
Proof. destruct o; simpl; unfold ret, raise; intros [=]; subst; auto. Qed.

Lemma true_div_is_Some (a b : Z) : b ≠ 0 → is_Some (true_div a b).
Proof.
  intros Hb. unfold true_div. destruct (Z.eqb_spec b 0); [contradiction|].
  destruct (a =? 0); eauto.
Qed.

Lemma true_div_Some_nonzero (a b : Z) (q : binary64) :
  true_div a b = Some q → b ≠ 0.
Proof. unfold true_div. destruct (Z.eqb_spec b 0); [discriminate|auto]. Qed.

Lemma cell_glyph_is_Some (columns w h i : Z) :
  w ≠ 0 → h ≠ 0 → is_Some (cell_glyph columns w h i).
Proof.
  intros Hw Hh. unfold cell_glyph.
  destruct (true_div_is_Some (i `mod` columns * CELL_SIZE) w Hw) as [? ->].
  destruct (true_div_is_Some (i `div` columns * CELL_SIZE) h Hh) as [? ->].
  destruct (true_div_is_Some (i `mod` columns * CELL_SIZE + CELL_SIZE) w Hw) as [? ->].
  destruct (true_div_is_Some (i `div` columns * CELL_SIZE + CELL_SIZE) h Hh) as [? ->].
  simpl. eauto.
Qed.

(** The fields of the entry of position [i]. *)
Lemma cell_glyph_fields (columns w h i : Z) (g : Glyph.t) :
  cell_glyph columns w h i = Some g →
  Glyph.index g = i
  ∧ Glyph.x g = (i `mod` columns) * CELL_SIZE
  ∧ Glyph.y g = (i `div` columns) * CELL_SIZE
  ∧ ∃ qu0 qv0 qu1 qv1,
      true_div (Glyph.x g) w = Some qu0 ∧ Glyph.u0 g = round6 qu0
      ∧ true_div (Glyph.y g) h = Some qv0 ∧ Glyph.v0 g = round6 qv0
      ∧ true_div (Glyph.x g + CELL_SIZE) w = Some qu1 ∧ Glyph.u1 g = round6 qu1
      ∧ true_div (Glyph.y g + CELL_SIZE) h = Some qv1 ∧ Glyph.v1 g = round6 qv1.
Proof.
  unfold cell_glyph.
  destruct (true_div (i `mod` columns * CELL_SIZE) w) as [qu0|] eqn:H1; [|discriminate].
  destruct (true_div (i `div` columns * CELL_SIZE) h) as [qv0|] eqn:H2; [|discriminate].
  destruct (true_div (i `mod` columns * CELL_SIZE + CELL_SIZE) w) as [qu1|] eqn:H3;
    [|discriminate].
  destruct (true_div (i `div` columns * CELL_SIZE + CELL_SIZE) h) as [qv1|] eqn:H4;
    [|discriminate].
  simpl. intros [= <-]. simpl. repeat split.
  exists qu0, qv0, qu1, qv1. auto 10.
Qed.

Section Rendering.

Context {Font Canvas : Type} {P : Platform Font Canvas}.

(** One turn of the loop: the drawing decides the image and the warning,
    never the entry. *)
Lemma render_char_step (font : Font) (columns w h i : Z) (char : ascii)
    (img : Canvas) (m : gmap ascii Glyph.t) :
  render_char font columns w h (img, m) i char
  = let cx := (i `mod` columns) * CELL_SIZE + CELL_SIZE `div` 2 in
    let cy := (i `div` columns) * CELL_SIZE + CELL_SIZE `div` 2 in
    let drawn := draw_text img cx cy char font in
    (match cell_glyph columns w h i with
     | Some g => inr (default img drawn, <[char := g]> m)
     | None => inl ZeroDivisionError
     end,
     match drawn with
     | Some _ => []
     | None => [Print (CouldNotRender char)]
     end).
Proof.
  unfold render_char. cbv zeta.
  destruct (draw_text img _ _ char font) as [img'|]; simpl;
    destruct (cell_glyph columns w h i); reflexivity.
Qed.

Lemma render_chars_inv (font : Font) (columns w h : Z) (chars : list ascii) :
  ∀ i img m img' m' t,
    render_chars font columns w h i chars (img, m) = (inr (img', m'), t) →
    m' = layout columns w h i chars m
    ∧ (chars = [] ∨ (w ≠ 0 ∧ h ≠ 0)).
Proof.
  induction chars as [|c chars IH]; intros i img m img' m' t; cbn [render_chars].
  - intros [= <- <- <-]. auto.
  - intros Hrun. apply bind_inr in Hrun as ([img1 m1] & t1 & t2 & Hstep & Hrest & _).
    rewrite render_char_step in Hstep. cbv zeta in Hstep.
    destruct (cell_glyph columns w h i) as [g|] eqn:Hg; [|discriminate].
    injection Hstep as <- <- <-.
    apply IH in Hrest as [-> _]. split; [cbn [layout]; now rewrite Hg|]. right.
    apply cell_glyph_fields in Hg as (_ & _ & _ & ? & ? & ? & ? & H1 & _ & H2 & _).
    split; eapply true_div_Some_nonzero; eassumption.
Qed.

Lemma render_chars_total (font : Font) (columns w h : Z) (chars : list ascii) :
  w ≠ 0 → h ≠ 0 →
  ∀ i img m, ∃ img' t,
    render_chars font columns w h i chars (img, m)
    = (inr (img', layout columns w h i chars m), t).
Proof.
  intros Hw Hh. induction chars as [|c chars IH]; intros i img m; cbn [render_chars].
  - exists img, []. reflexivity.
  - cbn [layout]. rewrite render_char_step. cbv zeta.
    destruct (cell_glyph_is_Some columns w h i Hw Hh) as [g Hg]. rewrite Hg.
    unfold bind.
    set (img1 := default img _).
    destruct (IH (i + 1) img1 (<[c := g]> m)) as (img' & t & ->).
    eexists img', _. reflexivity.
Qed.

End Rendering.

(** *** What the loop leaves in the dict *)

Section Layout.

Variables columns w h : Z.
Hypothesis w_nonzero : w ≠ 0.
Hypothesis h_nonzero : h ≠ 0.

Lemma layout_cons (i : Z) (c : ascii) (chars : list ascii) (m : gmap ascii Glyph.t) :
  ∃ g, cell_glyph columns w h i = Some g
       ∧ layout columns w h i (c :: chars) m
         = layout columns w h (i + 1) chars (<[c := g]> m).
Proof.
  destruct (cell_glyph_is_Some columns w h i w_nonzero h_nonzero) as [g Hg].
  exists g. simpl. rewrite Hg. auto.
Qed.

Lemma layout_lookup_other (chars : list ascii) (c : ascii) :
  c ∉ chars → ∀ i m, layout columns w h i chars m !! c = m !! c.
Proof.
  induction chars as [|c0 chars IH]; intros Hc i m; [reflexivity|].
  apply not_elem_of_cons in Hc as [Hne Hc].
  destruct (layout_cons i c0 chars m) as (g & _ & ->).
  rewrite IH by assumption. now apply lookup_insert_ne.
Qed.

(** Last write wins: the entry of a character is that of its last
    position. *)
Lemma layout_lookup_last (before : list ascii) (c : ascii) (after : list ascii) :
  c ∉ after →
  ∀ i m, layout columns w h i (before ++ c :: after) m !! c
         = cell_glyph columns w h (i + Z.of_nat (length before)).
Proof.
  intros Hc. induction before as [|c0 before IH]; intros i m.
  - cbn [app]. destruct (layout_cons i c after m) as (g & Hg & ->).
    rewrite layout_lookup_other by assumption.
    rewrite lookup_insert_eq. simpl. now rewrite Z.add_0_r.
  - cbn [app]. destruct (layout_cons i c0 (before ++ c :: after) m) as (g & _ & ->).
    rewrite IH. f_equal. simpl length. lia.
Qed.

Lemma layout_dom (chars : list ascii) :
  ∀ i m, dom (layout columns w h i chars m) = dom m ∪ list_to_set chars.
Proof.
  induction chars as [|c chars IH]; intros i m.
  - simpl. now rewrite (right_id_L ∅ (∪)).
  - destruct (layout_cons i c chars m) as (g & _ & ->).
    rewrite IH, dom_insert_L. simpl.
    now rewrite (comm_L (∪) {[c]} (dom m)), (assoc_L (∪)).
Qed.

(** Every entry was written at some position. *)
Lemma layout_lookup_Some (chars : list ascii) :
  ∀ i m c g,
    layout columns w h i chars m !! c = Some g →
    m !! c = Some g
    ∨ ∃ k : nat, chars !! k = Some c
                 ∧ cell_glyph columns w h (i + Z.of_nat k) = Some g.
Proof.
  induction chars as [|c0 chars IH]; intros i m c g Hlook.
  - now left.
  - destruct (layout_cons i c0 chars m) as (g0 & Hg0 & Heq). rewrite Heq in Hlook.
    apply IH in Hlook as [Hm|(k & Hk & Hg)].
    + destruct (decide (c0 = c)) as [->|Hne].
      * rewrite lookup_insert_eq in Hm. injection Hm as <-.
        right. exists 0%nat. simpl. rewrite Z.add_0_r. auto.
      * rewrite lookup_insert_ne in Hm by assumption. now left.
    + right. exists (S k). simpl. split; [assumption|].
      rewrite <- Hg. f_equal. lia.
Qed.

End Layout.

Lemma length_list_ascii_of_string (s : string) :
  length (list_ascii_of_string s) = String.length s.
Proof. induction s as [|c s IH]; simpl; congruence. Qed.

Lemma size_list_to_set_remove_dups (l : list ascii) :
  size (list_to_set l : gset ascii) = length (remove_dups l).
Proof.
  rewrite <- (size_list_to_set (C := gset ascii) (remove_dups l))
    by apply NoDup_remove_dups.
  f_equal. apply set_eq. intros c.
  now rewrite !elem_of_list_to_set, elem_of_remove_dups.
Qed.

Lemma remove_dups_length (l : list ascii) :
  (length (remove_dups l) ≤ length l)%nat
  ∧ (¬ NoDup l → (length (remove_dups l) < length l)%nat).
Proof.
  induction l as [|c l [IHle IHlt]]; simpl.
  - split; [lia|]. intros H. destruct H. constructor.
  - destruct (decide_rel elem_of c l) as [Hin|Hout]; simpl.
    + split; [lia|]. intros _. lia.
    + split; [lia|]. intros Hdup.
      assert (¬ NoDup l) by (intros Hl; apply Hdup; now constructor).
      specialize (IHlt ltac:(assumption)). lia.
Qed.



Lemma lookup_last_split (chars : list ascii) (i : nat) (c : ascii) :
  chars !! i = Some c →
  (∀ j, (i < j)%nat → chars !! j ≠ Some c) →
  ∃ before after, chars = before ++ c :: after ∧ length before = i ∧ c ∉ after.
Proof.
  intros Hi Hlast.
  destruct (list_elem_of_split_length chars i c Hi) as (before & after & -> & ->).
  exists before, after. repeat split. intros Hin.
  apply list_elem_of_lookup in Hin as [k Hk].
  apply (Hlast (length before + S k)%nat); [lia|].
  rewrite lookup_app_r by lia.
  replace (length before + S k - length before)%nat with (S k) by lia.
  exact Hk.
Qed.

Section Generation.

Context {Font Canvas : Type} {P : Platform Font Canvas}.

(** What a successful run has put in the metadata. *)
Lemma generate_sprite_sheet_inv (font_name : string) (font_size : Z)
    (character_set : string) (columns : Z)
    (img : Canvas) (md : Metadata.t) (t : list event) :
  generate_sprite_sheet font_name font_size character_set columns
  = (inr (img, md), t) →
  let num_chars := Z.of_nat (String.length character_set) in
  let chars := list_ascii_of_string character_set in
  ∃ q,
    true_div num_chars columns = Some q
    ∧ Metadata.font_name md = font_name
    ∧ Metadata.cell_width md = CELL_SIZE
    ∧ Metadata.cell_height md = CELL_SIZE
    ∧ Metadata.columns md = columns
    ∧ Metadata.rows md = math_ceil q
    ∧ Metadata.image_width md = columns * CELL_SIZE
    ∧ Metadata.image_height md = math_ceil q * CELL_SIZE
    ∧ Metadata.character_count md = num_chars
    ∧ Metadata.character_map md
      = layout columns (columns * CELL_SIZE) (math_ceil q * CELL_SIZE) 0 chars ∅
    ∧ (chars = [] ∨ (columns * CELL_SIZE ≠ 0 ∧ math_ceil q * CELL_SIZE ≠ 0)).
Proof.
  intros Hrun num_chars chars. unfold generate_sprite_sheet in Hrun.
  apply bind_inr in Hrun as (font_path & t1 & t1' & _ & Hrun & _).
  apply bind_inr in Hrun as ([font actual_size] & t2 & t2' & _ & Hrun & _).
  apply bind_inr in Hrun as ([[rows w] h] & t3 & t3' & Hgeo & Hrun & _).
  apply bind_inr in Hrun as (img0 & t4 & t4' & _ & Hrun & _).
  apply bind_inr in Hrun as ([img1 m] & t5 & t5' & Hloop & Hret & _).
  injection Hret as <- <- <-.
  apply arith_inr in Hgeo as [Hgeo _]. unfold grid_geometry in Hgeo.
  fold num_chars in Hgeo.
  destruct (true_div num_chars columns) as [q|]; [|discriminate].
  simpl in Hgeo. injection Hgeo as <- <- <-.
  apply render_chars_inv in Hloop as [-> Hnz].
  exists q. simpl. repeat split; auto.
Qed.

(** C3.  For [columns] at least 1 (and fewer than 2^53 characters, which
    every string a machine can hold satisfies), [rows] is the ceiling of
    [character_count / columns], the image is [columns * 16] wide and
    [rows * 16] high, and [character_count] is the length of the set.  Lines
    137-140 compute this for [columns] up to 2^1022, where the float quotient
    is in the normal range; every run that produces a sheet has it. *)
Theorem grid_dimensions (font_name : string) (font_size : Z)
    (character_set : string) (columns : Z) :
  1 ≤ columns →
  Z.of_nat (String.length character_set) < 2 ^ 53 →
  let num_chars := Z.of_nat (String.length character_set) in
  (columns ≤ 2 ^ 1022 →
   ∃ rows,
     grid_geometry num_chars columns
     = Some (rows, columns * CELL_SIZE, rows * CELL_SIZE)
     ∧ (rows - 1) * columns < num_chars ≤ rows * columns
     ∧ rows = (num_chars + columns - 1) `div` columns)
  ∧ ∀ img md t,
      generate_sprite_sheet font_name font_size character_set columns
      = (inr (img, md), t) →
      (Metadata.rows md - 1) * columns < num_chars ≤ Metadata.rows md * columns
      ∧ Metadata.rows md = (num_chars + columns - 1) `div` columns
      ∧ Metadata.image_width md = columns * Metadata.cell_width md
      ∧ Metadata.image_height md = Metadata.rows md * Metadata.cell_height md
      ∧ Metadata.cell_width md = 16 ∧ Metadata.cell_height md = 16
      ∧ Metadata.columns md = columns
      ∧ Metadata.character_count md = num_chars.
Proof.
  intros Hcol Hlen num_chars.
  destruct (math_ceil_true_div num_chars columns ltac:(unfold num_chars; lia) Hcol)
    as (q & Hq & Hlo & Hhi).
  split.
  - intros _. exists (math_ceil q). unfold grid_geometry. rewrite Hq. simpl.
    split; [reflexivity|]. split; [auto|].
    apply (Z.div_unique _ _ _ (num_chars + columns - 1 - math_ceil q * columns)); lia.
  - intros img md t Hrun.
    apply generate_sprite_sheet_inv in Hrun
      as (q' & Hq' & _ & Hcw & Hch & Hc & Hrows & Hw & Hh & Hcount & _).
    fold num_chars in Hq'. rewrite Hq in Hq'. injection Hq' as <-.
    rewrite Hrows, Hw, Hh, Hcw, Hch, Hc, Hcount. repeat split; try assumption.
    apply (Z.div_unique _ _ _ (num_chars + columns - 1 - math_ceil q * columns)); lia.
Qed.

(** The entry a successful run holds for a character, by its last
    position. *)
Lemma generate_lookup_last (font_name : string) (font_size : Z)
    (character_set : string) (columns : Z)
    (img : Canvas) (md : Metadata.t) (t : list event)
    (before : list ascii) (c : ascii) (after : list ascii) :
  generate_sprite_sheet font_name font_size character_set columns
  = (inr (img, md), t) →
  list_ascii_of_string character_set = before ++ c :: after →
  c ∉ after →
  ∃ g,
    cell_glyph columns (Metadata.image_width md) (Metadata.image_height md)
      (Z.of_nat (length before)) = Some g
    ∧ Metadata.character_map md !! c = Some g.
Proof.
  intros Hrun Hsplit Hc.
  apply generate_sprite_sheet_inv in Hrun
    as (q & _ & _ & _ & _ & _ & _ & Hw & Hh & _ & Hmap & Hnz).
  rewrite Hsplit in Hmap, Hnz.
  destruct Hnz as [Hnil|[Hwnz Hhnz]]; [now destruct before|].
  rewrite Hw, Hh, Hmap.
  rewrite (layout_lookup_last _ _ _ Hwnz Hhnz before c after Hc). simpl.
  destruct (cell_glyph_is_Some columns _ _ (Z.of_nat (length before)) Hwnz Hhnz)
    as [g Hg].
  exists g. rewrite Hg. auto.
Qed.

(** C5, as amended.  The character at position [i] receives index [i], the pixel
    origin of column [i mod columns] and row [i div columns], and as UVs the
    quotients of its cell's edges by the image width and height, stored
    rounded to six decimals; this is its entry in the map unless the same
    character occurs again later.  Character set "AB" on 10 columns: one
    row, a 160x16 image, A with index 0 at (0, 0), B with index 1 at
    (16, 0) and u0 = 0.1, u1 = 0.2. *)
Theorem row_major_layout (font_name : string) (font_size : Z)
    (character_set : string) (columns : Z) :
  1 ≤ columns →
  (∀ img md t,
     generate_sprite_sheet font_name font_size character_set columns
     = (inr (img, md), t) →
     ∀ (i : nat) (c : ascii),
       list_ascii_of_string character_set !! i = Some c →
       ∃ g,
         cell_glyph columns (Metadata.image_width md) (Metadata.image_height md)
           (Z.of_nat i) = Some g
         ∧ Glyph.index g = Z.of_nat i
         ∧ Glyph.x g = (Z.of_nat i `mod` columns) * CELL_SIZE
         ∧ Glyph.y g = (Z.of_nat i `div` columns) * CELL_SIZE
         ∧ (∃ qu0 qv0 qu1 qv1,
              true_div (Glyph.x g) (Metadata.image_width md) = Some qu0
              ∧ Glyph.u0 g = round6 qu0
              ∧ true_div (Glyph.y g) (Metadata.image_height md) = Some qv0
              ∧ Glyph.v0 g = round6 qv0
              ∧ true_div (Glyph.x g + CELL_SIZE) (Metadata.image_width md) = Some qu1
              ∧ Glyph.u1 g = round6 qu1
              ∧ true_div (Glyph.y g + CELL_SIZE) (Metadata.image_height md) = Some qv1
              ∧ Glyph.v1 g = round6 qv1)
         ∧ ((∀ j, (i < j)%nat → list_ascii_of_string character_set !! j ≠ Some c) →
            Metadata.character_map md !! c = Some g))
  ∧ (∀ img md t,
       generate_sprite_sheet font_name font_size "AB" 10 = (inr (img, md), t) →
       Metadata.rows md = 1
       ∧ Metadata.image_width md = 160
       ∧ Metadata.image_height md = 16
       ∧ Metadata.character_map md !! "A"%char
         = Some (Glyph.mk 0 0 0 0 0 100000 1000000)
       ∧ Metadata.character_map md !! "B"%char
         = Some (Glyph.mk 1 16 0 100000 0 200000 1000000)).
Proof.
  intros Hcol. split.
  - intros img md t Hrun i c Hi.
    pose proof (generate_sprite_sheet_inv _ _ _ _ _ _ _ Hrun)
      as (q & _ & _ & _ & _ & _ & _ & Hw & Hh & _ & _ & Hnz).
    destruct Hnz as [Hnil|[Hwnz Hhnz]]; [rewrite Hnil in Hi; discriminate|].
    rewrite <- Hw in Hwnz. rewrite <- Hh in Hhnz.
    destruct (cell_glyph_is_Some columns _ _ (Z.of_nat i) Hwnz Hhnz) as [g Hg].
    exists g. split; [exact Hg|].
    destruct (cell_glyph_fields _ _ _ _ _ Hg) as (Hidx & Hx & Hy & Huv).
    repeat (split; [assumption|]).
    intros Hlast.
    destruct (lookup_last_split _ _ _ Hi Hlast) as (before & after & Hsplit & <- & Hc).
    destruct (generate_lookup_last _ _ _ _ _ _ _ _ _ _ Hrun Hsplit Hc)
      as (g' & Hg' & Hlook).
    congruence.
  - intros img md t Hrun.
    apply generate_sprite_sheet_inv in Hrun
      as (q & Hq & _ & _ & _ & _ & Hrows & Hw & Hh & _ & Hmap & _).
    vm_compute in Hq. injection Hq as <-.
    rewrite Hrows, Hw, Hh, Hmap. vm_compute. auto.
Qed.


(** C10.  [character_count] is the length of the character sequence, every
    occurrence counted, while the map has one entry per distinct character:
    with a repeated character the count is larger than the map. *)
Theorem character_count_counts_occurrences (font_name : string) (font_size : Z)
    (character_set : string) (columns : Z)
    (img : Canvas) (md : Metadata.t) (t : list event) :
  generate_sprite_sheet font_name font_size character_set columns
  = (inr (img, md), t) →
  let chars := list_ascii_of_string character_set in
  Metadata.character_count md = Z.of_nat (length chars)
  ∧ size (Metadata.character_map md) = length (remove_dups chars)
  ∧ (¬ NoDup chars →
     Z.of_nat (size (Metadata.character_map md)) < Metadata.character_count md).
Proof.
  intros Hrun chars.
  apply generate_sprite_sheet_inv in Hrun
    as (q & _ & _ & _ & _ & _ & _ & _ & _ & Hcount & Hmap & Hnz).
  fold chars in Hmap, Hnz.
  assert (Hsize : size (Metadata.character_map md) = length (remove_dups chars)).
  { rewrite Hmap. destruct Hnz as [->|[Hw Hh]]; [reflexivity|].
    rewrite <- size_dom, (layout_dom _ _ _ Hw Hh), dom_empty_L, (left_id_L ∅ (∪)).
    apply size_list_to_set_remove_dups. }
  rewrite Hcount. unfold chars at 1. rewrite length_list_ascii_of_string.
  split; [reflexivity|]. split; [exact Hsize|].
  intros Hdup. rewrite Hsize.
  destruct (remove_dups_length chars) as [_ Hlt]. specialize (Hlt Hdup).
  unfold chars in Hlt at 2. rewrite length_list_ascii_of_string in Hlt. lia.
Qed.

End Generation.

(** ** The UV rectangle of a cell *)


Lemma outcome_arith {A} (o : option A) :
  outcome (arith o) = match o with Some a => inr a | None => inl ZeroDivisionError end.
Proof. destruct o; reflexivity. Qed.

Lemma outcome_call {A} (o : option A) :
  outcome (call o) = match o with Some a => inr a | None => inl LibraryError end.
Proof. destruct o; reflexivity. Qed.

Section Entries.

Context {Font Canvas : Type} {P : Platform Font Canvas}.


(** The metadata of a run, in terms of its steps; of the rendering loop
    only the dict matters. *)
Lemma metadata_of_generate (font_name : string) (font_size : Z)
    (character_set : string) (columns : Z) :
  metadata_of (generate_sprite_sheet font_name font_size character_set columns)
  = match outcome (find_system_font font_name) with
    | inl e => inl e
    | inr font_path =>
        match outcome (calculate_optimal_font_size font_path font_size CELL_SIZE) with
        | inl e => inl e
        | inr (font, actual_size) =>
            let num_chars := Z.of_nat (String.length character_set) in
            match grid_geometry num_chars columns with
            | None => inl ZeroDivisionError
            | Some (rows, img_width, img_height) =>
                match image_new img_width img_height with
                | None => inl LibraryError
                | Some img =>
                    match sum_map id snd
                            (outcome
                               (render_chars font columns img_width img_height 0
                                  (list_ascii_of_string character_set) (img, ∅))) with
                    | inl e => inl e
                    | inr character_map =>
                        inr (Metadata.mk font_name actual_size CELL_SIZE CELL_SIZE
                               columns rows img_width img_height num_chars
                               character_map)
                    end
                end
            end
        end
    end.
Proof.
  unfold metadata_of, generate_sprite_sheet. rewrite outcome_bind.
  destruct (outcome (find_system_font font_name)) as [e|font_path]; [reflexivity|].
  rewrite outcome_bind.
  destruct (outcome (calculate_optimal_font_size _ _ _)) as [e|[font actual_size]];
    [reflexivity|].
  cbv beta iota zeta. rewrite (outcome_bind (arith _)), outcome_arith.
  destruct (grid_geometry _ columns) as [[[rows w] h]|]; [|reflexivity].
  cbv beta iota zeta. rewrite (outcome_bind (call _)), outcome_call.
  destruct (image_new w h) as [img|]; [|reflexivity].
  cbv beta iota zeta. rewrite (outcome_bind (render_chars _ _ _ _ _ _ _)).
  destruct (outcome (render_chars _ _ _ _ _ _ _)) as [e|[img' m]]; reflexivity.
Qed.

End Entries.

(** The dict built by the rendering loop is the same on any two platforms,
    fonts and images: it does not depend on what drawing does. *)
Lemma render_chars_dict_independent
    {Font1 Canvas1 Font2 Canvas2 : Type}
    (P1 : Platform Font1 Canvas1) (P2 : Platform Font2 Canvas2)
    (font1 : Font1) (font2 : Font2) (columns w h : Z) (chars : list ascii) :
  ∀ i img1 img2 m,
    sum_map id snd
      (outcome (render_chars (P := P1) font1 columns w h i chars (img1, m)))
    = sum_map id snd
        (outcome (render_chars (P := P2) font2 columns w h i chars (img2, m))).
Proof.
  induction chars as [|c chars IH]; intros i img1 img2 m; cbn [render_chars].
  - reflexivity.
  - rewrite !outcome_bind, !render_char_step. cbv zeta. unfold outcome at 2 4.
    cbn [fst]. destruct (cell_glyph columns w h i) as [g|]; [|reflexivity].
    apply IH.
Qed.

(** C9.  A drawing that raises costs a warning and leaves the image as it
    was; the entry of the character is recorded all the same, and the loop
    goes on: it ends with an entry for every character of the set.  The
    metadata of a run does not depend on the drawing at all: two platforms
    that differ only in [draw_text] yield the same metadata. *)
Theorem render_failure_keeps_metadata :
  (∀ (Font Canvas : Type) (P : Platform Font Canvas) (font : Font)
     (columns w h i : Z) (char : ascii) (img : Canvas)
     (m : gmap ascii Glyph.t) (g : Glyph.t),
     cell_glyph columns w h i = Some g →
     draw_text img
       ((i `mod` columns) * CELL_SIZE + CELL_SIZE `div` 2)
       ((i `div` columns) * CELL_SIZE + CELL_SIZE `div` 2) char font = None →
     render_char font columns w h (img, m) i char
     = (inr (img, <[char := g]> m), [Print (CouldNotRender char)]))
  ∧ (∀ (Font Canvas : Type) (P : Platform Font Canvas) (font : Font)
       (columns w h : Z) (chars : list ascii) (img : Canvas),
       w ≠ 0 → h ≠ 0 →
       ∃ img' t,
         render_chars font columns w h 0 chars (img, ∅)
         = (inr (img', layout columns w h 0 chars ∅), t)
         ∧ ∀ c, c ∈ chars → is_Some (layout columns w h 0 chars ∅ !! c))
  ∧ (∀ (Font Canvas : Type) exists_ default load bbox new draw1 draw2
       (font_name : string) (font_size : Z) (character_set : string) (columns : Z),
       metadata_of
         (generate_sprite_sheet
            (P := Build_Platform Font Canvas exists_ default load bbox new draw1)
            font_name font_size character_set columns)
       = metadata_of
           (generate_sprite_sheet
              (P := Build_Platform Font Canvas exists_ default load bbox new draw2)
              font_name font_size character_set columns)).
Proof.
  split; [|split].
  - intros Font Canvas P font columns w h i char img m g Hg Hdraw.
    rewrite render_char_step. cbv zeta. rewrite Hg, Hdraw. reflexivity.
  - intros Font Canvas P font columns w h chars img Hw Hh.
    destruct (render_chars_total font columns w h chars Hw Hh 0 img ∅)
      as (img' & t & Hrun).
    exists img', t. split; [exact Hrun|].
    intros c Hc. apply elem_of_dom. rewrite (layout_dom _ _ _ Hw Hh).
    apply elem_of_union_r. now apply elem_of_list_to_set.
  - intros Font Canvas exists_ default load bbox new draw1 draw2
      font_name font_size character_set columns.
    rewrite !metadata_of_generate.
    change (outcome (find_system_font
              (P := Build_Platform Font Canvas exists_ default load bbox new draw2)
              font_name))
      with (outcome (find_system_font
              (P := Build_Platform Font Canvas exists_ default load bbox new draw1)
              font_name)).
    destruct (outcome (find_system_font _)) as [e|font_path]; [reflexivity|].
    change (outcome (calculate_optimal_font_size
              (P := Build_Platform Font Canvas exists_ default load bbox new draw2)
              font_path font_size CELL_SIZE))
      with (outcome (calculate_optimal_font_size
              (P := Build_Platform Font Canvas exists_ default load bbox new draw1)
              font_path font_size CELL_SIZE)).
    destruct (outcome (calculate_optimal_font_size _ _ _)) as [e|[font actual_size]];
      [reflexivity|].
    cbv zeta. destruct (grid_geometry _ columns) as [[[rows w] h]|]; [|reflexivity].
    cbn [image_new]. destruct (new w h) as [img|]; [|reflexivity].
    rewrite (render_chars_dict_independent
               (Build_Platform Font Canvas exists_ default load bbox new draw1)
               (Build_Platform Font Canvas exists_ default load bbox new draw2)
               font font columns w h _ 0 img img ∅).
    reflexivity.
Qed.

(** ** More on the float quotient: exact values and monotonicity *)

Lemma rne_scale (c n d : Z) : 0 < c → 0 < d → rne (c * n) (c * d) = rne n d.
Proof.
  intros Hc Hd. unfold rne.
  rewrite Z.div_mul_cancel_l, Zmult_mod_distr_l by lia.
  destruct (Z.compare_spec (2 * (n `mod` d)) d),
           (Z.compare_spec (2 * (c * (n `mod` d))) (c * d));
    try reflexivity; nia.
Qed.

Lemma true_div_zero (b : Z) : b ≠ 0 → true_div 0 b = Some (B64 0 0).
Proof. intros Hb. unfold true_div. now destruct (Z.eqb_spec b 0). Qed.

(** [b / b] is the float 1.0. *)
Lemma true_div_self (b : Z) : 0 < b → true_div b b = Some (B64 (2 ^ 52) (- 52)).
Proof.
  intros Hb. unfold true_div.
  destruct (Z.eqb_spec b 0); [lia|].
  rewrite Z.abs_eq, Z.sgn_pos by lia.
  assert (Hden : scaled_den b (- 52) = b).
  { unfold scaled_den. change (Z.max 0 (- 52)) with 0. change (2 ^ 0) with 1. ring. }
  assert (Hnum : scaled_num b (- 52) = 2 ^ 52 * b).
  { unfold scaled_num. change (Z.max 0 (- - 52)) with 52. ring. }
  unfold fl_quot. rewrite Z.sub_diag. change (0 - 52) with (- 52).
  rewrite Hden, Hnum, Z.leb_refl. cbn [mant expo].
  rewrite Hden, Hnum, rne_exact by lia.
  reflexivity.
Qed.

(** The quotient of [0 < a <= b]: a mantissa over a power of two. *)
Lemma fl_quot_fraction (a b : Z) :
  0 < a ≤ b →
  let f := fl_quot a b in
  ∃ x, 0 ≤ x ∧ expo f = - x
       ∧ 2 ^ 52 * b ≤ a * 2 ^ x ∧ a * 2 ^ x < 2 ^ 53 * b
       ∧ mant f = rne (a * 2 ^ x) b
       ∧ round6 f = rne (mant f * 1000000) (2 ^ x).
Proof.
  intros Hab f.
  destruct (fl_quot_range a b ltac:(lia) ltac:(lia)) as (Hm & Hlo & Hhi).
  fold f in Hm, Hlo, Hhi. unfold scaled_num, scaled_den in *.
  destruct (scale_identity (expo f)) as [HR HP].
  assert (He : expo f ≤ 0).
  { destruct (Z_lt_le_dec 0 (expo f)) as [Hpos|]; [|lia]. exfalso.
    rewrite (Z.max_l 0 (- expo f)) in Hlo by lia.
    change (2 ^ 0) with 1 in *. nia. }
  rewrite (Z.max_l 0 (expo f)) in * by lia.
  rewrite (Z.max_r 0 (- expo f)) in * by lia.
  change (2 ^ 0) with 1 in *. rewrite !Z.mul_1_r in *.
  exists (- expo f). split; [lia|]. split; [lia|].
  repeat (split; [assumption|]).
  unfold round6, scaled_num, scaled_den. rewrite Z.opp_involutive.
  rewrite (Z.max_l 0 (expo f)), (Z.max_r 0 (- expo f)) by lia.
  change (2 ^ 0) with 1. now rewrite Z.mul_1_r, Z.mul_1_l.
Qed.

Lemma pow2_double (x y : Z) : 0 ≤ x < y → ∃ c, 2 ≤ c ∧ 2 ^ y = c * 2 ^ x.
Proof.
  intros Hxy. exists (2 ^ (y - x)). split.
  - change 2 with (2 ^ 1) at 1. apply Z.pow_le_mono_r; lia.
  - rewrite <- Z.pow_add_r by lia. f_equal. lia.
Qed.

(** [round(a / b, 6)] grows with [a]. *)
Lemma round6_true_div_mono (a a' b : Z) :
  0 ≤ a ≤ a' → a' ≤ b → 0 < b →
  ∃ q q', true_div a b = Some q ∧ true_div a' b = Some q'
          ∧ round6 q ≤ round6 q'.
Proof.
  intros Haa Hab Hb.
  destruct (round6_true_div a' b ltac:(lia) Hb) as (q' & Hq' & Henc').
  destruct (Z.eq_dec a 0) as [->|Hnz].
  { exists (B64 0 0), q'. rewrite true_div_zero by lia.
    split; [reflexivity|]. split; [assumption|].
    change (round6 (B64 0 0)) with 0.
    destruct (Z_lt_le_dec (round6 q') 0) as [Hneg|]; [exfalso|assumption].
    assert (round6 q' * b ≤ - b) by nia.
    change (2 ^ 53) with 9007199254740992 in *.
    change (2 ^ 52) with 4503599627370496 in *. lia. }
  unfold true_div in *.
  destruct (Z.eqb_spec b 0); [lia|].
  destruct (Z.eqb_spec a 0); [lia|]. destruct (Z.eqb_spec a' 0); [lia|].
  rewrite !Z.abs_eq, !Z.sgn_pos in * by lia.
  injection Hq' as <-. eexists _, _. split; [reflexivity|]. split; [reflexivity|].
  rewrite !Z.mul_1_l.
  destruct (fl_quot a b) as [m e] eqn:Hf.
  destruct (fl_quot a' b) as [m' e'] eqn:Hf'.
  pose proof (fl_quot_fraction a b ltac:(lia)) as (x & Hx & He & Hlo & Hhi & Hm & Hk).
  pose proof (fl_quot_fraction a' b ltac:(lia))
    as (x' & Hx' & He' & Hlo' & Hhi' & Hm' & Hk').
  rewrite Hf in He, Hm, Hk. rewrite Hf' in He', Hm', Hk'. cbn [mant expo] in *.
  rewrite Hk, Hk'.
  assert (Hp : 0 < 2 ^ x) by (apply Z.pow_pos_nonneg; lia).
  assert (Hp' : 0 < 2 ^ x') by (apply Z.pow_pos_nonneg; lia).
  assert (Hmlo : 2 ^ 52 ≤ m').
  { rewrite Hm', <- (rne_exact (2 ^ 52) b) by lia. apply rne_mono; lia. }
  assert (Hmhi : m ≤ 2 ^ 53).
  { rewrite Hm, <- (rne_exact (2 ^ 53) b) by lia. apply rne_mono; lia. }
  destruct (Z.lt_trichotomy x x') as [Hlt|[Heq|Hgt]].
  - exfalso. destruct (pow2_double x x' ltac:(lia)) as (c & Hc & Hpow).
    rewrite Hpow in Hhi'.
    change (2 ^ 53) with (2 * 2 ^ 52) in Hhi'.
    assert (a * 2 ^ x ≤ a' * 2 ^ x) by nia.
    assert (2 * (a' * 2 ^ x) ≤ a' * (c * 2 ^ x)) by nia. lia.
  - subst x'. apply rne_mono; [lia|].
    assert (m ≤ m'); [|lia].
    rewrite Hm, Hm'. apply rne_mono; [lia|]. nia.
  - destruct (pow2_double x' x ltac:(lia)) as (c & Hc & Hpow).
    rewrite <- (rne_scale c (m' * 1000000) (2 ^ x')) by lia.
    rewrite <- Hpow. apply rne_mono; [lia|].
    change (2 ^ 53) with (2 * 2 ^ 52) in Hmhi. nia.
Qed.

Lemma round6_one : round6 (B64 (2 ^ 52) (- 52)) = 1000000.
Proof. reflexivity. Qed.

(** [math.ceil] of a positive quotient is at least 1. *)
Lemma math_ceil_positive (a b : Z) (q : binary64) :
  0 < a → 0 < b → true_div a b = Some q → 1 ≤ math_ceil q.
Proof.
  intros Ha Hb. unfold true_div.
  destruct (Z.eqb_spec b 0); [lia|]. destruct (Z.eqb_spec a 0); [lia|].
  rewrite !Z.abs_eq, !Z.sgn_pos by lia. intros [= <-].
  destruct (fl_quot_range a b Ha Hb) as (Hm & Hlo & _).
  set (f := fl_quot a b) in *.
  unfold math_ceil; cbn [mant expo]. rewrite !Z.mul_1_l.
  unfold scaled_num, scaled_den in *. rewrite Z.opp_involutive.
  destruct (scale_identity (expo f)) as [HR HP].
  set (R := 2 ^ Z.max 0 (expo f)) in *. set (Pw := 2 ^ Z.max 0 (- expo f)) in *.
  assert (HbR : 0 < b * R) by nia.
  assert (Hpos : 2 ^ 52 ≤ mant f).
  { rewrite Hm, <- (rne_exact (2 ^ 52) (b * R)) by assumption.
    apply rne_mono; assumption. }
  rewrite Z.mul_1_l.
  pose proof (ceil_floor_spec (mant f * R) Pw HP) as [_ Hup].
  change (2 ^ 52) with 4503599627370496 in Hpos.
  assert (Hnum : 0 < mant f * R) by nia.
  set (C := - (- (mant f * R)) `div` Pw) in *.
  destruct (Z_lt_le_dec C 1) as [Hsmall|]; [exfalso|assumption].
  assert (C * Pw ≤ 0) by nia. lia.
Qed.

(** ** More on locating and fitting *)

Lemma trace_bind {A B} (m : M A) (k : A → M B) :
  trace (bind m k)
  = match outcome m with
    | inl _ => trace m
    | inr a => trace m ++ trace (k a)
    end.
Proof.
  destruct m as [[e|a] t]; simpl; [reflexivity|].
  unfold trace. simpl. destruct (k a). reflexivity.
Qed.

Section Lookup.

Context {Font Canvas : Type} {P : Platform Font Canvas}.

(** The candidate loop either stops at the first existing path or probes
    them all. *)
Lemma first_existing_cases (paths : list string) :
  (∃ tried path rest,
     paths = tried ++ path :: rest
     ∧ (∀ p, p ∈ tried → path_exists p = false)
     ∧ path_exists path = true
     ∧ first_existing paths = (inr (Some path), map Probe tried ++ [Probe path]))
  ∨ ((∀ p, p ∈ paths → path_exists p = false)
     ∧ first_existing paths = (inr None, map Probe paths)).
Proof.
  induction paths as [|p paths IH].
  - right. split; [|reflexivity]. intros p Hp. now apply elem_of_nil in Hp.
  - destruct (path_exists p) eqn:Hp.
    + left. exists [], p, paths. split; [reflexivity|].
      split; [intros q Hq; now apply elem_of_nil in Hq|]. split; [assumption|].
      apply (first_existing_hit [] p paths); [|assumption].
      intros q Hq. now apply elem_of_nil in Hq.
    + destruct IH as [(tried & path & rest & -> & Hmiss & Hhit & _)|[Hmiss _]].
      * left. exists (p :: tried), path, rest. split; [reflexivity|].
        assert (Hmiss' : ∀ q, q ∈ p :: tried → path_exists q = false).
        { intros q Hq. apply elem_of_cons in Hq as [->|Hq]; auto. }
        split; [assumption|]. split; [assumption|].
        apply (first_existing_hit (p :: tried) path rest); assumption.
      * right.
        assert (Hmiss' : ∀ q, q ∈ p :: paths → path_exists q = false).
        { intros q Hq. apply elem_of_cons in Hq as [->|Hq]; auto. }
        split; [assumption|]. now apply first_existing_miss.
Qed.

Lemma probed_probes (paths : list string) : probed (map Probe paths) = paths.
Proof.
  induction paths as [|p paths IH]; simpl; [reflexivity|].
  unfold probed in *. simpl. now rewrite IH.
Qed.

(** The three ways [find_system_font] ends, with what it probes and
    prints. *)
Lemma find_system_font_cases (font_name : string) :
  (path_exists font_name = true
   ∧ find_system_font font_name = (inr (FontPath font_name), [Probe font_name]))
  ∨ (∃ tried path rest,
       path_exists font_name = false
       ∧ font_paths font_name = tried ++ path :: rest
       ∧ (∀ p, p ∈ tried → path_exists p = false)
       ∧ path_exists path = true
       ∧ find_system_font font_name
         = (inr (FontPath path), map Probe (font_name :: tried ++ [path])))
  ∨ (path_exists font_name = false
     ∧ (∀ p, p ∈ font_paths font_name → path_exists p = false)
     ∧ find_system_font font_name
       = (match load_default with
          | Some font => inr (FontObject font)
          | None => inl (ValueError ("Could not find font: " +:+ font_name))
          end,
          map Probe (font_name :: font_paths font_name)
          ++ [Print (FontNotFound font_name)])).
Proof.
  unfold find_system_font.
  destruct (path_exists font_name) eqn:Hname.
  - left. split; [reflexivity|].
    unfold os_path_exists, bind, emit, ret. simpl. now rewrite Hname.
  - right.
    destruct (first_existing_cases (font_paths font_name))
      as [(tried & p & rest & Heq & Hmiss & Hhit & Hrun)|[Hmiss Hrun]].
    + left. exists tried, p, rest. repeat (split; [assumption || reflexivity|]).
      rewrite Hrun. unfold os_path_exists, bind, emit, ret. simpl. rewrite Hname.
      simpl. now rewrite app_nil_r, map_app.
    + right. split; [reflexivity|]. split; [assumption|].
      rewrite Hrun.
      unfold os_path_exists, try_except, call, bind, emit, ret, raise. simpl.
      rewrite Hname. destruct load_default; simpl; now rewrite ?app_nil_r.
Qed.

Lemma printed_app (t1 t2 : list event) : printed (t1 ++ t2) = printed t1 ++ printed t2.
Proof. apply omap_app. Qed.

Lemma probed_app (t1 t2 : list event) : probed (t1 ++ t2) = probed t1 ++ probed t2.
Proof. apply omap_app. Qed.

(** X1.  A path returned by [find_system_font] exists on the file system and
    is the given name itself or one of the seven candidate paths.  A font
    object is returned only when it is the default font and neither the name
    nor any candidate path exists. *)
Theorem located_font_exists (font_name : string) :
  (∀ path,
     outcome (find_system_font font_name) = inr (FontPath path) →
     path_exists path = true
     ∧ (path = font_name ∨ path ∈ font_paths font_name))
  ∧ (∀ font,
       outcome (find_system_font font_name) = inr (FontObject font) →
       load_default = Some font
       ∧ path_exists font_name = false
       ∧ ∀ p, p ∈ font_paths font_name → path_exists p = false).
Proof.
  destruct (find_system_font_cases font_name)
    as [[Hname ->]|[(tried & p & rest & Hname & Heq & Hmiss & Hhit & ->)
                   |(Hname & Hmiss & ->)]]; cbn [outcome fst].
  - split.
    + intros path [= <-]. auto.
    + intros font [=].
  - split.
    + intros path [= <-]. split; [assumption|]. right.
      rewrite Heq, elem_of_app, elem_of_cons. auto.
    + intros font [=].
  - split.
    + intros path Hp. destruct load_default; discriminate.
    + intros font Hf. destruct load_default as [d|]; [|discriminate].
      injection Hf as <-. auto.
Qed.

(** X2.  The paths [find_system_font] probes are a prefix of the name
    followed by the seven candidates, in that order, so at most eight.  It
    prints nothing or the single not-found warning, and it prints the warning
    exactly when all eight paths were probed and none of them exists. *)
Theorem probes_are_a_prefix (font_name : string) :
  let t := trace (find_system_font font_name) in
  probed t `prefix_of` font_name :: font_paths font_name
  ∧ (length (probed t) ≤ 8)%nat
  ∧ (printed t = [] ∨ printed t = [FontNotFound font_name])
  ∧ (printed t = [FontNotFound font_name]
     ↔ probed t = font_name :: font_paths font_name
       ∧ ∀ p, p ∈ probed t → path_exists p = false).
Proof.
  intros t.
  assert (Hlen : ∀ l, l `prefix_of` font_name :: font_paths font_name →
                      (length l ≤ 8)%nat).
  { intros l Hl. apply prefix_length in Hl. exact Hl. }
  unfold t.
  destruct (find_system_font_cases font_name)
    as [[Hname ->]|[(tried & p & rest & Hname & Heq & Hmiss & Hhit & ->)
                   |(Hname & Hmiss & ->)]]; cbn [trace snd].
  - change (probed [Probe font_name]) with [font_name].
    change (printed [Probe font_name]) with (@nil warning).
    assert (Hpre : [font_name] `prefix_of` font_name :: font_paths font_name)
      by (now exists (font_paths font_name)).
    split; [exact Hpre|]. split; [auto|]. split; [auto|].
    split; [discriminate|]. intros [_ Hall].
    rewrite (Hall font_name) in Hname; [discriminate|apply list_elem_of_here].
  - rewrite probed_probes, printed_probes.
    assert (Hpre : (font_name :: tried ++ [p])
                     `prefix_of` font_name :: font_paths font_name).
    { exists rest. rewrite Heq. simpl. now rewrite <- app_assoc. }
    split; [exact Hpre|]. split; [auto|]. split; [auto|].
    split; [discriminate|]. intros [_ Hall].
    rewrite (Hall p) in Hhit; [discriminate|].
    apply list_elem_of_further, elem_of_app. right. apply list_elem_of_here.
  - rewrite probed_app, printed_app, probed_probes, printed_probes.
    change (probed [Print (FontNotFound font_name)]) with (@nil string).
    change (printed [Print (FontNotFound font_name)]) with [FontNotFound font_name].
    rewrite app_nil_r. cbn [app].
    split; [reflexivity|]. split; [apply Hlen; reflexivity|]. split; [auto|].
    split; [|reflexivity]. intros _. split; [reflexivity|].
    intros p Hp. apply elem_of_cons in Hp as [->|Hp]; auto.
Qed.

End Lookup.

Section Sizes.

Context {Font Canvas : Type} {P : Platform Font Canvas}.

Lemma measure_nonneg (font : Font) (w h : Z) :
  measure font = Some (w, h) → 0 ≤ w ∧ 0 ≤ h.
Proof.
  unfold measure. destruct (image_new 100 100); [|discriminate].
  rewrite measure_chars_boxes.
  destruct (mapM (textbbox font) probe_chars) as [boxes|]; [|discriminate].
  simpl. intros [= <- <-].
  split.
  - apply (proj1 (foldl_max_bound (box_width <$> boxes) 0)).
  - apply (proj1 (foldl_max_bound (box_height <$> boxes) 0)).
Qed.

Lemma fit_at_measured (path : string) (max_fit_size size : Z) (font : Font) :
  fit_at path max_fit_size size = Some font → unmeasurable path size = false.
Proof.
  unfold fit_at, unmeasurable, measured.
  destruct (truetype path size) as [f|]; simpl; [|discriminate].
  destruct (measure f); [reflexivity|discriminate].
Qed.

(** A warning is printed for a size exactly when loading or measuring
    raised. *)
Lemma try_size_trace (path : string) (max_fit_size size : Z) :
  trace (try_size (FontPath path) max_fit_size size)
  = if unmeasurable path size then [Print (CouldNotLoad size)] else [].
Proof.
  unfold try_size, unmeasurable, measured.
  destruct (truetype path size) as [font|]; simpl; [|reflexivity].
  destruct (measure font) as [[w h]|]; simpl; [|reflexivity].
  destruct ((w <=? max_fit_size) && (h <=? max_fit_size)); reflexivity.
Qed.

Lemma search_sizes_miss_trace (path : string) (max_fit_size : Z) (sizes : list Z) :
  (∀ s, s ∈ sizes → fit_at path max_fit_size s = None) →
  trace (search_sizes (FontPath path) max_fit_size sizes) = load_warnings path sizes.
Proof.
  induction sizes as [|s sizes IH]; intros Hmiss; [reflexivity|].
  cbn [search_sizes]. rewrite trace_bind, try_size_path, try_size_trace.
  rewrite (Hmiss s) by apply list_elem_of_here. cbn [fmap option_fmap option_map].
  rewrite IH by (intros s' Hs'; apply Hmiss; now apply list_elem_of_further).
  unfold load_warnings. cbn [List.filter].
  destruct (unmeasurable path s); reflexivity.
Qed.

Lemma search_sizes_hit_trace (path : string) (max_fit_size : Z)
    (before : list Z) (s : Z) (after : list Z) (font : Font) :
  (∀ s', s' ∈ before → fit_at path max_fit_size s' = None) →
  fit_at path max_fit_size s = Some font →
  trace (search_sizes (FontPath path) max_fit_size (before ++ s :: after))
  = load_warnings path before.
Proof.
  induction before as [|s0 before IH]; intros Hmiss Hfit; cbn [app search_sizes].
  - rewrite trace_bind, try_size_path, try_size_trace, Hfit.
    rewrite (fit_at_measured _ _ _ _ Hfit). reflexivity.
  - rewrite trace_bind, try_size_path, try_size_trace.
    rewrite (Hmiss s0) by apply list_elem_of_here. cbn [fmap option_fmap option_map].
    rewrite IH by (try assumption; intros s' Hs'; apply Hmiss;
                   now apply list_elem_of_further).
    unfold load_warnings. cbn [List.filter].
    destruct (unmeasurable path s0); reflexivity.
Qed.

Lemma fallback_trace (path : string) :
  trace
    (try_except
       (font <- call (truetype path 8) ;; ret (font, 8))
       (fun _ => font <- call load_default ;; ret (font, 8)))
  = [].
Proof. destruct (truetype path 8), load_default; reflexivity. Qed.

Lemma sorted_split_after (before : list Z) (s : Z) (after : list Z) :
  StronglySorted (fun s s' => s' < s) (before ++ s :: after) →
  ∀ s', s' ∈ after → s' < s.
Proof.
  induction before as [|b before IH]; simpl; intros Hsorted.
  - apply StronglySorted_inv in Hsorted as [_ Hall].
    intros s' Hs'. rewrite Forall_forall in Hall. now apply Hall.
  - apply StronglySorted_inv in Hsorted as [Hsorted _]. now apply IH.
Qed.

(** The fitter on a font file that has a fitting candidate. *)
Lemma fitted_size_hit (path : string) (initial_size target_size s : Z) (font : Font) :
  5 ≤ s ≤ initial_size →
  fit_at path (target_size - 4) s = Some font →
  (∀ s', s < s' ≤ initial_size → fit_at path (target_size - 4) s' = None) →
  outcome (calculate_optimal_font_size (FontPath path) initial_size target_size)
  = inr (font, s).
Proof.
  intros Hs Hfit Hmiss. unfold calculate_optimal_font_size. rewrite outcome_bind.
  rewrite (range_down_split initial_size 4 s) by lia.
  rewrite (search_sizes_hit _ _ _ _ _ font); [reflexivity| |assumption].
  intros s' Hs'. apply elem_of_range_down in Hs'. apply Hmiss. lia.
Qed.

(** The fitter on a font file without a fitting candidate. *)
Lemma fitted_size_miss (path : string) (initial_size target_size : Z) :
  (∀ s, 5 ≤ s ≤ initial_size → fit_at path (target_size - 4) s = None) →
  outcome (calculate_optimal_font_size (FontPath path) initial_size target_size)
  = match truetype path 8 with
    | Some font => inr (font, 8)
    | None => match load_default with
              | Some font => inr (font, 8)
              | None => inl LibraryError
              end
    end.
Proof.
  intros Hmiss. unfold calculate_optimal_font_size. rewrite outcome_bind.
  rewrite search_sizes_miss.
  - apply fallback_outcome.
  - intros s Hs. apply elem_of_range_down in Hs. apply Hmiss. lia.
Qed.

(** The two ways the fitter ends on a font file. *)
Lemma fitted_size_search (path : string) (initial_size target_size : Z) :
  let result :=
    outcome (calculate_optimal_font_size (FontPath path) initial_size target_size) in
  (∃ font s, 5 ≤ s ≤ initial_size
             ∧ fit_at path (target_size - 4) s = Some font
             ∧ (∀ s', s < s' ≤ initial_size →
                      fit_at path (target_size - 4) s' = None)
             ∧ result = inr (font, s))
  ∨ ((∀ s, 5 ≤ s ≤ initial_size → fit_at path (target_size - 4) s = None)
     ∧ result = match truetype path 8 with
                | Some font => inr (font, 8)
                | None => match load_default with
                          | Some font => inr (font, 8)
                          | None => inl LibraryError
                          end
                end).
Proof.
  intros result.
  destruct (search_sizes_first path (target_size - 4) (range_down initial_size 4))
    as [Hmiss|(before & s & after & font & Heq & Hmiss & Hfit)].
  - right.
    assert (Hnone : ∀ s, 5 ≤ s ≤ initial_size →
                         fit_at path (target_size - 4) s = None).
    { intros s Hs. apply Hmiss, elem_of_range_down. lia. }
    split; [exact Hnone|]. now apply fitted_size_miss.
  - left. exists font, s.
    assert (Hs : s ∈ range_down initial_size 4)
      by (rewrite Heq, elem_of_app, elem_of_cons; auto).
    apply elem_of_range_down in Hs.
    assert (Habove : ∀ s', s < s' ≤ initial_size →
                           fit_at path (target_size - 4) s' = None).
    { intros s' Hs'.
      assert (Hin : s' ∈ range_down initial_size 4)
        by (apply elem_of_range_down; lia).
      rewrite Heq, elem_of_app, elem_of_cons in Hin.
      destruct Hin as [Hin|[->|Hin]]; [now apply Hmiss|lia|].
      pose proof (range_down_sorted initial_size 4) as Hsorted.
      rewrite Heq in Hsorted.
      pose proof (sorted_split_after _ _ _ Hsorted s' Hin). lia. }
    split; [lia|]. split; [assumption|]. split; [assumption|].
    apply fitted_size_hit; [lia|assumption|assumption].
Qed.

Lemma fitted_size_cases (path : string) (initial_size target_size : Z) :
  let result :=
    outcome (calculate_optimal_font_size (FontPath path) initial_size target_size) in
  (∃ font s, 5 ≤ s ≤ initial_size ∧ truetype path s = Some font
             ∧ result = inr (font, s))
  ∨ ((∀ s, 5 ≤ s ≤ initial_size → fit_at path (target_size - 4) s = None)
     ∧ result = match truetype path 8 with
                | Some font => inr (font, 8)
                | None => match load_default with
                          | Some font => inr (font, 8)
                          | None => inl LibraryError
                          end
                end).
Proof.
  intros result.
  destruct (fitted_size_search path initial_size target_size)
    as [(font & s & Hs & Hfit & _ & Heq)|Hmiss]; [left|now right].
  exists font, s. apply fit_at_spec in Hfit as [Hload _]. auto.
Qed.

(** X3.  On a font file the fitter returns either a size between 5 and
    [initial_size] with the font loaded at that size, or size 8 with the font
    loaded at size 8 or, when that load fails, with the default font.  It
    raises only when neither the size-8 load nor the default font is
    available.  With [initial_size] below 5 the returned size is always 8. *)
Theorem fitted_size_range (path : string) (initial_size target_size : Z) :
  let result :=
    outcome (calculate_optimal_font_size (FontPath path) initial_size target_size) in
  (∀ font s,
     result = inr (font, s) →
     (5 ≤ s ≤ initial_size ∧ truetype path s = Some font)
     ∨ (s = 8 ∧ (truetype path 8 = Some font
                 ∨ (truetype path 8 = None ∧ load_default = Some font))))
  ∧ (∀ e, result = inl e →
          e = LibraryError ∧ truetype path 8 = None ∧ load_default = None)
  ∧ (initial_size < 5 → ∀ font s, result = inr (font, s) → s = 8).
Proof.
  intros result.
  pose proof (fitted_size_cases path initial_size target_size) as Hcases.
  cbv zeta in Hcases. fold result in Hcases.
  split; [|split].
  - intros font s Hres.
    destruct Hcases as [(font' & s' & Hs' & Hload & Heq)|[_ Heq]];
      rewrite Heq in Hres.
    + injection Hres as <- <-. auto.
    + right. destruct (truetype path 8) as [f|].
      * injection Hres as <- <-. auto.
      * destruct load_default as [d|]; [|discriminate].
        injection Hres as <- <-. auto.
  - intros e Hres.
    destruct Hcases as [(font' & s' & _ & _ & Heq)|[_ Heq]]; rewrite Heq in Hres;
      [discriminate|].
    destruct (truetype path 8); [discriminate|].
    destruct load_default; [discriminate|]. injection Hres as <-. auto.
  - intros Hsmall font s Hres.
    destruct Hcases as [(font' & s' & Hs' & _ & _)|[_ Heq]]; [lia|].
    rewrite Heq in Hres. destruct (truetype path 8).
    + now injection Hres.
    + destruct load_default; [now injection Hres|discriminate].
Qed.

(** X4.  The fitter prints one could-not-load warning for each candidate
    size at which loading the font or measuring the probe glyphs raises, in
    decreasing order, from [initial_size] down to just above the accepted
    size, and down to 5 when no size is accepted.  A size that loads and
    measures but does not fit is passed over silently, and so is the fallback
    to size 8. *)
Theorem fitter_warnings (path : string) (initial_size target_size : Z) :
  let t := trace (calculate_optimal_font_size (FontPath path) initial_size target_size) in
  (∀ s font,
     5 ≤ s ≤ initial_size →
     fit_at path (target_size - 4) s = Some font →
     (∀ s', s < s' ≤ initial_size → fit_at path (target_size - 4) s' = None) →
     t = load_warnings path (range_down initial_size s))
  ∧ ((∀ s, 5 ≤ s ≤ initial_size → fit_at path (target_size - 4) s = None) →
     t = load_warnings path (range_down initial_size 4)).
Proof.
  intros t. unfold t, calculate_optimal_font_size. split.
  - intros s font Hs Hfit Hlarger.
    assert (Hmiss : ∀ s', s' ∈ range_down initial_size s →
                          fit_at path (target_size - 4) s' = None).
    { intros s' Hs'. apply elem_of_range_down in Hs'. apply Hlarger. lia. }
    rewrite trace_bind, (range_down_split initial_size 4 s) by lia.
    rewrite (search_sizes_hit _ _ _ _ _ font Hmiss Hfit).
    rewrite (search_sizes_hit_trace _ _ _ _ _ font Hmiss Hfit).
    apply app_nil_r.
  - intros Hnone.
    assert (Hmiss : ∀ s, s ∈ range_down initial_size 4 →
                         fit_at path (target_size - 4) s = None).
    { intros s Hs. apply elem_of_range_down in Hs. apply Hnone. lia. }
    rewrite trace_bind, (search_sizes_miss _ _ _ Hmiss).
    rewrite (search_sizes_miss_trace _ _ _ Hmiss), fallback_trace.
    apply app_nil_r.
Qed.

(** X5.  With [target_size] below 4 the padded limit [target_size - 4] is
    negative and no candidate is accepted: the result is the size-8 fallback,
    whatever the font measures. *)
Theorem cell_too_small_for_any_size (path : string) (initial_size target_size : Z) :
  target_size < 4 →
  outcome (calculate_optimal_font_size (FontPath path) initial_size target_size)
  = match truetype path 8 with
    | Some font => inr (font, 8)
    | None => match load_default with
              | Some font => inr (font, 8)
              | None => inl LibraryError
              end
    end.
Proof.
  intros Hsmall. unfold calculate_optimal_font_size. rewrite outcome_bind.
  rewrite search_sizes_miss; [apply fallback_outcome|].
  intros s _. destruct (fit_at path (target_size - 4) s) as [font|] eqn:Hfit;
    [exfalso|reflexivity].
  apply fit_at_spec in Hfit as (_ & w & h & Hm & Hw & _).
  apply measure_nonneg in Hm. lia.
Qed.

(** A request between the fitted size and the original request gives the
    same result. *)
Lemma fitted_size_stable (handle : font_handle Font) (initial_size target_size : Z)
    (font : Font) (s : Z) :
  outcome (calculate_optimal_font_size handle initial_size target_size)
  = inr (font, s) →
  s ≠ 8 ∨ 8 ≤ initial_size →
  ∀ n, s ≤ n ≤ initial_size →
       outcome (calculate_optimal_font_size handle n target_size) = inr (font, s).
Proof.
  intros Hres Hs n Hn. destruct handle as [path|default].
  - destruct (fitted_size_search path initial_size target_size)
      as [(font' & s' & Hs' & Hfit & Habove & Heq)|[Hmiss Heq]];
      rewrite Hres in Heq.
    + injection Heq as -> ->.
      apply fitted_size_hit; [lia|assumption|].
      intros s0 Hs0. apply Habove. lia.
    + assert (s = 8) as ->.
      { destruct (truetype path 8); [now injection Heq|].
        destruct load_default; [now injection Heq|discriminate]. }
      rewrite Heq. apply fitted_size_miss.
      intros s0 Hs0. apply Hmiss. lia.
  - unfold calculate_optimal_font_size in *.
    rewrite outcome_bind, search_sizes_object in *.
    destruct (Z.leb_spec 5 initial_size).
    + rewrite range_down_cons in Hres by lia. injection Hres as <- <-.
      rewrite range_down_cons by lia. reflexivity.
    + rewrite range_down_nil in Hres by lia. injection Hres as <- <-. lia.
Qed.

End Sizes.

(** ** More on the sheet *)

Section SheetFacts.

Context {Font Canvas : Type} {P : Platform Font Canvas}.

(** Every entry of the map was computed at a position of its character. *)
Lemma generate_entry (font_name : string) (font_size : Z)
    (character_set : string) (columns : Z)
    (img : Canvas) (md : Metadata.t) (t : list event) (c : ascii) (g : Glyph.t) :
  generate_sprite_sheet font_name font_size character_set columns
  = (inr (img, md), t) →
  Metadata.character_map md !! c = Some g →
  ∃ k : nat,
    list_ascii_of_string character_set !! k = Some c
    ∧ Z.of_nat k < Z.of_nat (String.length character_set)
    ∧ cell_glyph columns (Metadata.image_width md) (Metadata.image_height md)
        (Z.of_nat k) = Some g.
Proof.
  intros Hrun Hlook.
  apply generate_sprite_sheet_inv in Hrun
    as (q & _ & _ & _ & _ & _ & _ & Hw & Hh & _ & Hmap & Hnz).
  rewrite Hmap in Hlook.
  destruct Hnz as [Hnil|[Hwnz Hhnz]]; [rewrite Hnil in Hlook; discriminate|].
  apply (layout_lookup_Some _ _ _ Hwnz Hhnz) in Hlook as [Hempty|(k & Hk & Hg)];
    [discriminate|].
  exists k. split; [exact Hk|]. split.
  - apply lookup_lt_Some in Hk. rewrite length_list_ascii_of_string in Hk. lia.
  - rewrite Hw, Hh. now rewrite Z.add_0_l in Hg.
Qed.

(** The grid of a successful run, for at least one column and fewer than
    2^53 characters. *)
Lemma generate_grid (font_name : string) (font_size : Z)
    (character_set : string) (columns : Z)
    (img : Canvas) (md : Metadata.t) (t : list event) :
  1 ≤ columns →
  Z.of_nat (String.length character_set) < 2 ^ 53 →
  generate_sprite_sheet font_name font_size character_set columns
  = (inr (img, md), t) →
  let n := Z.of_nat (String.length character_set) in
  Metadata.image_width md = columns * CELL_SIZE
  ∧ Metadata.image_height md = Metadata.rows md * CELL_SIZE
  ∧ (Metadata.rows md - 1) * columns < n ≤ Metadata.rows md * columns.
Proof.
  intros Hcol Hlen Hrun n.
  apply generate_sprite_sheet_inv in Hrun
    as (q & Hq & _ & _ & _ & _ & Hrows & Hw & Hh & _ & _ & _).
  destruct (math_ceil_true_div n columns) as (q' & Hq' & Hlo & Hhi);
    [unfold n; lia | lia |].
  fold n in Hq. rewrite Hq in Hq'. injection Hq' as <-.
  rewrite Hw, Hh, Hrows. auto.
Qed.

(** X6.  With at least one column (and fewer than 2^53 characters) every
    cell recorded in the character map lies inside the image: its pixel
    origin is a multiple of 16 and not negative, and the 16x16 cell ends
    within [image_width] and [image_height]. *)
Theorem cells_inside_image (font_name : string) (font_size : Z)
    (character_set : string) (columns : Z)
    (img : Canvas) (md : Metadata.t) (t : list event) :
  1 ≤ columns →
  Z.of_nat (String.length character_set) < 2 ^ 53 →
  generate_sprite_sheet font_name font_size character_set columns
  = (inr (img, md), t) →
  ∀ c g,
    Metadata.character_map md !! c = Some g →
    0 ≤ Glyph.x g ∧ Glyph.x g + CELL_SIZE ≤ Metadata.image_width md
    ∧ 0 ≤ Glyph.y g ∧ Glyph.y g + CELL_SIZE ≤ Metadata.image_height md
    ∧ Glyph.x g `mod` CELL_SIZE = 0 ∧ Glyph.y g `mod` CELL_SIZE = 0.
Proof.
  intros Hcol Hlen Hrun c g Hlook.
  destruct (generate_grid _ _ _ _ _ _ _ Hcol Hlen Hrun) as (Hw & Hh & Hlo & Hhi).
  destruct (generate_entry _ _ _ _ _ _ _ _ _ Hrun Hlook) as (k & _ & Hk & Hg).
  apply cell_glyph_fields in Hg as (_ & Hx & Hy & _).
  rewrite Hx, Hy, Hw, Hh. change CELL_SIZE with 16.
  pose proof (Z.mod_pos_bound (Z.of_nat k) columns ltac:(lia)).
  assert (0 ≤ Z.of_nat k `div` columns < Metadata.rows md).
  { split; [apply Z.div_pos; lia|]. apply Z.div_lt_upper_bound; nia. }
  rewrite !Z.mod_mul by lia. lia.
Qed.

(** X7.  With at least one column the [index] of an entry is a position of
    its character in the character set, so it is below [character_count], and
    it is recovered from the pixel origin as [(y / 16) * columns + x / 16]. *)
Theorem index_round_trip (font_name : string) (font_size : Z)
    (character_set : string) (columns : Z)
    (img : Canvas) (md : Metadata.t) (t : list event) :
  1 ≤ columns →
  generate_sprite_sheet font_name font_size character_set columns
  = (inr (img, md), t) →
  ∀ c g,
    Metadata.character_map md !! c = Some g →
    0 ≤ Glyph.index g < Metadata.character_count md
    ∧ list_ascii_of_string character_set !! Z.to_nat (Glyph.index g) = Some c
    ∧ Glyph.index g
      = (Glyph.y g `div` CELL_SIZE) * columns + Glyph.x g `div` CELL_SIZE.
Proof.
  intros Hcol Hrun c g Hlook.
  destruct (generate_entry _ _ _ _ _ _ _ _ _ Hrun Hlook) as (k & Hc & Hk & Hg).
  apply generate_sprite_sheet_inv in Hrun
    as (q & _ & _ & _ & _ & _ & _ & _ & _ & Hcount & _).
  apply cell_glyph_fields in Hg as (Hidx & Hx & Hy & _).
  rewrite Hidx, Hx, Hy, Hcount, Nat2Z.id. change CELL_SIZE with 16.
  split; [lia|]. split; [exact Hc|].
  rewrite !Z.div_mul by lia.
  pose proof (Z.div_mod (Z.of_nat k) columns ltac:(lia)). lia.
Qed.

(** X8.  With at least one column two different characters of the map
    occupy different cells and have different indices. *)
Theorem distinct_characters_distinct_cells (font_name : string) (font_size : Z)
    (character_set : string) (columns : Z)
    (img : Canvas) (md : Metadata.t) (t : list event) :
  1 ≤ columns →
  generate_sprite_sheet font_name font_size character_set columns
  = (inr (img, md), t) →
  ∀ c1 c2 g1 g2,
    Metadata.character_map md !! c1 = Some g1 →
    Metadata.character_map md !! c2 = Some g2 →
    c1 ≠ c2 →
    (Glyph.x g1, Glyph.y g1) ≠ (Glyph.x g2, Glyph.y g2)
    ∧ Glyph.index g1 ≠ Glyph.index g2.
Proof.
  intros Hcol Hrun c1 c2 g1 g2 Hl1 Hl2 Hne.
  destruct (generate_entry _ _ _ _ _ _ _ _ _ Hrun Hl1) as (k1 & Hc1 & _ & Hg1).
  destruct (generate_entry _ _ _ _ _ _ _ _ _ Hrun Hl2) as (k2 & Hc2 & _ & Hg2).
  apply cell_glyph_fields in Hg1 as (Hi1 & Hx1 & Hy1 & _).
  apply cell_glyph_fields in Hg2 as (Hi2 & Hx2 & Hy2 & _).
  assert (Hk : k1 ≠ k2) by (intros ->; congruence).
  split.
  - rewrite Hx1, Hy1, Hx2, Hy2. change CELL_SIZE with 16. intros [= Hx Hy].
    pose proof (Z.div_mod (Z.of_nat k1) columns ltac:(lia)).
    pose proof (Z.div_mod (Z.of_nat k2) columns ltac:(lia)).
    assert (Z.of_nat k1 = Z.of_nat k2) by nia. lia.
  - rewrite Hi1, Hi2. lia.
Qed.

(** One direction of a cell, on a grid of any size: the rounded quotients
    stay within [0, 1] and in order. *)
Lemma uv_interval_weak (a cells : Z) :
  1 ≤ cells → 0 ≤ a < cells →
  ∃ q0 q1,
    true_div (a * CELL_SIZE) (cells * CELL_SIZE) = Some q0
    ∧ true_div (a * CELL_SIZE + CELL_SIZE) (cells * CELL_SIZE) = Some q1
    ∧ 0 ≤ round6 q0 ∧ round6 q0 ≤ round6 q1 ∧ round6 q1 ≤ 1000000.
Proof.
  intros Hcells Ha. change CELL_SIZE with 16.
  destruct (round6_true_div_mono 0 (a * 16) (cells * 16))
    as (z & q0 & Hz & Hq0 & Hlow); [lia..|].
  destruct (round6_true_div_mono (a * 16) (a * 16 + 16) (cells * 16))
    as (q0' & q1 & Hq0' & Hq1 & Hmid); [lia..|].
  destruct (round6_true_div_mono (a * 16 + 16) (cells * 16) (cells * 16))
    as (q1' & one & Hq1' & Hone & Hhigh); [lia..|].
  rewrite true_div_zero in Hz by lia. injection Hz as <-.
  rewrite true_div_self in Hone by lia. injection Hone as <-.
  rewrite Hq0 in Hq0'. injection Hq0' as <-.
  rewrite Hq1 in Hq1'. injection Hq1' as <-.
  exists q0, q1. rewrite round6_one in Hhigh. change (round6 (B64 0 0)) with 0 in Hlow.
  auto.
Qed.

(** X9.  On every grid with at least one column (and fewer than 2^53
    characters) the stored UV rectangle is ordered and inside the unit
    square: [0 <= u0 <= u1 <= 1] and [0 <= v0 <= v1 <= 1], in millionths. *)
Theorem uv_never_inverted (font_name : string) (font_size : Z)
    (character_set : string) (columns : Z)
    (img : Canvas) (md : Metadata.t) (t : list event) :
  1 ≤ columns →
  Z.of_nat (String.length character_set) < 2 ^ 53 →
  generate_sprite_sheet font_name font_size character_set columns
  = (inr (img, md), t) →
  ∀ c g,
    Metadata.character_map md !! c = Some g →
    (0 ≤ Glyph.u0 g ∧ Glyph.u0 g ≤ Glyph.u1 g ∧ Glyph.u1 g ≤ 1000000)
    ∧ (0 ≤ Glyph.v0 g ∧ Glyph.v0 g ≤ Glyph.v1 g ∧ Glyph.v1 g ≤ 1000000).
Proof.
  intros Hcol Hlen Hrun c g Hlook.
  destruct (generate_grid _ _ _ _ _ _ _ Hcol Hlen Hrun) as (Hw & Hh & Hlo & Hhi).
  destruct (generate_entry _ _ _ _ _ _ _ _ _ Hrun Hlook) as (k & _ & Hk & Hg).
  assert (Hcolumn : 0 ≤ Z.of_nat k `mod` columns < columns)
    by (apply Z.mod_pos_bound; lia).
  assert (Hrow : 0 ≤ Z.of_nat k `div` columns < Metadata.rows md).
  { split; [apply Z.div_pos; lia|]. apply Z.div_lt_upper_bound; nia. }
  destruct (uv_interval_weak _ _ Hcol Hcolumn) as (qu0 & qu1 & Hu0 & Hu1 & Hu).
  destruct (uv_interval_weak _ (Metadata.rows md) ltac:(lia) Hrow)
    as (qv0 & qv1 & Hv0 & Hv1 & Hv).
  apply cell_glyph_fields in Hg
    as (_ & Hx & Hy & qu0' & qv0' & qu1' & qv1'
        & Hu0' & -> & Hv0' & -> & Hu1' & -> & Hv1' & ->).
  rewrite Hx, Hw in Hu0', Hu1'. rewrite Hy, Hh in Hv0', Hv1'.
  rewrite Hu0 in Hu0'. rewrite Hu1 in Hu1'. rewrite Hv0 in Hv0'. rewrite Hv1 in Hv1'.
  injection Hu0' as <-. injection Hu1' as <-.
  injection Hv0' as <-. injection Hv1' as <-. tauto.
Qed.

(** X10.  With at least one column the edges of the atlas are exact: a cell
    in the first column has [u0 = 0], a cell in the first row [v0 = 0], a
    cell ending at the right edge [u1 = 1] and a cell ending at the bottom
    edge [v1 = 1]. *)
Theorem uv_edges_exact (font_name : string) (font_size : Z)
    (character_set : string) (columns : Z)
    (img : Canvas) (md : Metadata.t) (t : list event) :
  1 ≤ columns →
  generate_sprite_sheet font_name font_size character_set columns
  = (inr (img, md), t) →
  ∀ c g,
    Metadata.character_map md !! c = Some g →
    (Glyph.x g = 0 → Glyph.u0 g = 0)
    ∧ (Glyph.y g = 0 → Glyph.v0 g = 0)
    ∧ (Glyph.x g + CELL_SIZE = Metadata.image_width md → Glyph.u1 g = 1000000)
    ∧ (Glyph.y g + CELL_SIZE = Metadata.image_height md → Glyph.v1 g = 1000000).
Proof.
  intros Hcol Hrun c g Hlook.
  destruct (generate_entry _ _ _ _ _ _ _ _ _ Hrun Hlook) as (k & _ & Hk & Hg).
  apply generate_sprite_sheet_inv in Hrun
    as (q & Hq & _ & _ & _ & _ & _ & Hw & Hh & _ & _ & _).
  assert (HH : 0 < Metadata.image_height md).
  { rewrite Hh. unfold CELL_SIZE.
    assert (Hn : 0 < Z.of_nat (String.length character_set)) by lia.
    assert (Hc : 0 < columns) by lia.
    pose proof (math_ceil_positive _ _ _ Hn Hc Hq). lia. }
  apply cell_glyph_fields in Hg
    as (_ & _ & _ & qu0 & qv0 & qu1 & qv1
        & Hu0 & -> & Hv0 & -> & Hu1 & -> & Hv1 & ->).
  assert (HW : 0 < Metadata.image_width md) by (rewrite Hw; unfold CELL_SIZE; lia).
  repeat split.
  - intros Hx. rewrite Hx, true_div_zero in Hu0 by lia. now injection Hu0 as <-.
  - intros Hy. rewrite Hy, true_div_zero in Hv0
      by (eapply true_div_Some_nonzero; eassumption).
    now injection Hv0 as <-.
  - intros Hx. rewrite Hx, true_div_self in Hu1 by lia. now injection Hu1 as <-.
  - intros Hy. rewrite Hy, true_div_self in Hv1 by lia. now injection Hv1 as <-.
Qed.

(** X11.  With at least one column neighbouring cells share their edge
    coordinate exactly.  For the next index in the same row [u0] is the [u1]
    of the cell before and [v0], [v1] agree; for the cell one row below, at
    [index + columns], [v0] is the [v1] of the cell above and [u0], [u1]
    agree. *)
Theorem uv_tiling (font_name : string) (font_size : Z)
    (character_set : string) (columns : Z)
    (img : Canvas) (md : Metadata.t) (t : list event) :
  1 ≤ columns →
  generate_sprite_sheet font_name font_size character_set columns
  = (inr (img, md), t) →
  ∀ c c' g g',
    Metadata.character_map md !! c = Some g →
    Metadata.character_map md !! c' = Some g' →
    (Glyph.index g' = Glyph.index g + 1 →
     Glyph.x g + CELL_SIZE < Metadata.image_width md →
     Glyph.u0 g' = Glyph.u1 g ∧ Glyph.v0 g' = Glyph.v0 g ∧ Glyph.v1 g' = Glyph.v1 g)
    ∧ (Glyph.index g' = Glyph.index g + columns →
       Glyph.v0 g' = Glyph.v1 g ∧ Glyph.u0 g' = Glyph.u0 g ∧ Glyph.u1 g' = Glyph.u1 g).
Proof.
  intros Hcol Hrun c c' g g' Hl Hl'.
  destruct (generate_entry _ _ _ _ _ _ _ _ _ Hrun Hl) as (k & _ & _ & Hg).
  destruct (generate_entry _ _ _ _ _ _ _ _ _ Hrun Hl') as (k' & _ & _ & Hg').
  apply generate_sprite_sheet_inv in Hrun
    as (q & _ & _ & _ & _ & _ & _ & Hw & _ & _ & _ & _).
  apply cell_glyph_fields in Hg
    as (Hi & Hx & Hy & qu0 & qv0 & qu1 & qv1
        & Hu0 & -> & Hv0 & -> & Hu1 & -> & Hv1 & ->).
  apply cell_glyph_fields in Hg'
    as (Hi' & Hx' & Hy' & qu0' & qv0' & qu1' & qv1'
        & Hu0' & -> & Hv0' & -> & Hu1' & -> & Hv1' & ->).
  pose proof (Z.div_mod (Z.of_nat k) columns ltac:(lia)) as Hdm.
  pose proof (Z.mod_pos_bound (Z.of_nat k) columns ltac:(lia)) as Hmb.
  split.
  - intros Hnext Hroom.
    rewrite Hx, Hw in Hroom. change CELL_SIZE with 16 in Hroom.
    assert (Hmod : Z.of_nat k' `mod` columns = Z.of_nat k `mod` columns + 1
                   ∧ Z.of_nat k' `div` columns = Z.of_nat k `div` columns).
    { rewrite Hi, Hi' in Hnext. rewrite Hnext. split.
      - symmetry. apply (Z.mod_unique_pos _ _ (Z.of_nat k `div` columns)); lia.
      - symmetry. apply (Z.div_unique_pos _ _ _ (Z.of_nat k `mod` columns + 1)); lia. }
    destruct Hmod as [Hm Hd].
    assert (Hxx : Glyph.x g' = Glyph.x g + CELL_SIZE)
      by (rewrite Hx, Hx', Hm; unfold CELL_SIZE; lia).
    assert (Hyy : Glyph.y g' = Glyph.y g) by (rewrite Hy, Hy', Hd; reflexivity).
    rewrite Hxx in Hu0'. rewrite Hyy in Hv0', Hv1'.
    split; [|split]; congruence.
  - intros Hbelow.
    assert (Hmod : Z.of_nat k' `mod` columns = Z.of_nat k `mod` columns
                   ∧ Z.of_nat k' `div` columns = Z.of_nat k `div` columns + 1).
    { rewrite Hi, Hi' in Hbelow. rewrite Hbelow. split.
      - symmetry. apply (Z.mod_unique_pos _ _ (Z.of_nat k `div` columns + 1)); lia.
      - symmetry. apply (Z.div_unique_pos _ _ _ (Z.of_nat k `mod` columns)); lia. }
    destruct Hmod as [Hm Hd].
    assert (Hxx : Glyph.x g' = Glyph.x g) by (rewrite Hx, Hx', Hm; reflexivity).
    assert (Hyy : Glyph.y g' = Glyph.y g + CELL_SIZE)
      by (rewrite Hy, Hy', Hd; unfold CELL_SIZE; lia).
    rewrite Hyy in Hv0'. rewrite Hxx in Hu0', Hu1'.
    split; [|split]; congruence.
Qed.

(** The font steps of a successful run. *)
Lemma generate_font (font_name : string) (font_size : Z)
    (character_set : string) (columns : Z)
    (img : Canvas) (md : Metadata.t) (t : list event) :
  generate_sprite_sheet font_name font_size character_set columns
  = (inr (img, md), t) →
  ∃ handle font,
    outcome (find_system_font font_name) = inr handle
    ∧ outcome (calculate_optimal_font_size handle font_size CELL_SIZE)
      = inr (font, Metadata.font_size md).
Proof.
  intros Hrun. unfold generate_sprite_sheet in Hrun.
  apply bind_inr in Hrun as (handle & t1 & t1' & Hfind & Hrun & _).
  apply bind_inr in Hrun as ([font actual_size] & t2 & t2' & Hfit & Hrun & _).
  apply bind_inr in Hrun as ([[rows w] h] & t3 & t3' & _ & Hrun & _).
  apply bind_inr in Hrun as (img0 & t4 & t4' & _ & Hrun & _).
  apply bind_inr in Hrun as ([img1 m] & t5 & t5' & _ & Hret & _).
  injection Hret as <- <- <-.
  exists handle, font. unfold outcome. rewrite Hfind, Hfit. auto.
Qed.

(** X12.  In the metadata [font_name] is the name as requested, not the
    path that was found, and [font_size] is between 5 and the requested size,
    or 8, or 10.  It is 8 when the request is below 5; when the name or one
    of the candidate paths exists it is between 5 and the requested size, or
    8, so the default font's nominal 10 does not exceed the request. *)
Theorem metadata_font_fields (font_name : string) (font_size : Z)
    (character_set : string) (columns : Z)
    (img : Canvas) (md : Metadata.t) (t : list event) :
  generate_sprite_sheet font_name font_size character_set columns
  = (inr (img, md), t) →
  Metadata.font_name md = font_name
  ∧ (5 ≤ Metadata.font_size md ≤ font_size
     ∨ Metadata.font_size md = 8
     ∨ Metadata.font_size md = 10)
  ∧ (font_size < 5 → Metadata.font_size md = 8)
  ∧ ((path_exists font_name = true
      ∨ ∃ p, p ∈ font_paths font_name ∧ path_exists p = true) →
     5 ≤ Metadata.font_size md ≤ font_size ∨ Metadata.font_size md = 8).
Proof.
  intros Hrun.
  destruct (generate_font _ _ _ _ _ _ _ Hrun) as (handle & font & Hfind & Hfit).
  apply generate_sprite_sheet_inv in Hrun as (q & _ & Hname & _).
  split; [exact Hname|].
  destruct handle as [path|default].
  - pose proof (fitted_size_cases path font_size CELL_SIZE) as Hcases.
    cbv zeta in Hcases. rewrite Hfit in Hcases.
    assert (Hsize : (5 ≤ Metadata.font_size md ≤ font_size)
                    ∨ (Metadata.font_size md = 8
                       ∧ ∀ s, 5 ≤ s ≤ font_size →
                              fit_at path (CELL_SIZE - 4) s = None)).
    { destruct Hcases as [(f & s & Hs & _ & [= _ ->])|[Hnone Heq]]; [auto|].
      right. split; [|exact Hnone].
      destruct (truetype path 8); [now injection Heq|].
      destruct load_default; [now injection Heq|discriminate]. }
    split; [tauto|]. split; [|tauto].
    intros Hsmall. destruct Hsize as [?|[? _]]; [lia|assumption].
  - assert (Hsize : Metadata.font_size md = (if 5 <=? font_size then 10 else 8)).
    { unfold calculate_optimal_font_size in Hfit.
      rewrite outcome_bind, search_sizes_object in Hfit.
      destruct (Z.leb_spec 5 font_size).
      - rewrite range_down_cons in Hfit by lia. now injection Hfit.
      - rewrite range_down_nil in Hfit by lia. now injection Hfit. }
    destruct (find_system_font_cases font_name)
      as [[Hex Heq]|[(tried & p & rest & _ & _ & _ & _ & Heq)|(Hno & Hmiss & _)]];
      try (rewrite Heq in Hfind; discriminate).
    destruct (Z.leb_spec 5 font_size).
    + split; [auto|]. split; [lia|].
      intros [Hex|(p & Hp & Hex)]; [congruence|].
      rewrite (Hmiss p Hp) in Hex. discriminate.
    + split; [auto|]. split; [auto|]. auto.
Qed.

(** X13.  With an empty character set a run that succeeds has a column
    count other than 0 and produces an image of height 0 with [rows = 0],
    [character_count = 0] and an empty character map. *)
Theorem empty_character_set (font_name : string) (font_size : Z) (columns : Z)
    (img : Canvas) (md : Metadata.t) (t : list event) :
  generate_sprite_sheet font_name font_size EmptyString columns
  = (inr (img, md), t) →
  columns ≠ 0
  ∧ Metadata.character_count md = 0
  ∧ Metadata.rows md = 0
  ∧ Metadata.image_width md = columns * CELL_SIZE
  ∧ Metadata.image_height md = 0
  ∧ Metadata.character_map md = ∅
  ∧ image_new (columns * CELL_SIZE) 0 = Some img.
Proof.
  intros Hrun. unfold generate_sprite_sheet in Hrun.
  apply bind_inr in Hrun as (handle & t1 & t1' & Hfind & Hrun & ->).
  apply bind_inr in Hrun as ([font actual_size] & t2 & t2' & Hfit & Hrun & ->).
  apply bind_inr in Hrun as ([[rows w] h] & t3 & t3' & Hgeo & Hrun & ->).
  apply bind_inr in Hrun as (img0 & t4 & t4' & Hnew & Hrun & ->).
  apply bind_inr in Hrun as ([img1 m] & t5 & t5' & Hloop & Hret & ->).
  injection Hret as <- <- <-.
  apply arith_inr in Hgeo as [Hgeo ->]. unfold grid_geometry in Hgeo.
  change (Z.of_nat (String.length EmptyString)) with 0 in Hgeo.
  destruct (true_div 0 columns) as [q|] eqn:Hq; [|discriminate].
  pose proof (true_div_Some_nonzero _ _ _ Hq) as Hcol.
  rewrite true_div_zero in Hq by assumption. injection Hq as <-.
  injection Hgeo as <- <- <-.
  cbn [list_ascii_of_string render_chars] in Hloop. unfold ret in Hloop.
  injection Hloop as <- <- <-.
  change (math_ceil (B64 0 0)) with 0 in *.
  change (0 * CELL_SIZE) with 0 in *.
  unfold call in Hnew.
  destruct (image_new (columns * CELL_SIZE) 0) as [img0'|]; [|discriminate].
  injection Hnew as <- <-.
  cbn [Metadata.character_count Metadata.rows Metadata.image_width
       Metadata.image_height Metadata.character_map String.length Z.of_nat].
  repeat split; assumption || reflexivity.
Qed.

(** X14.  With [columns = 0] no run succeeds; once the font is found and
    fitted the exception is ZeroDivisionError, for an empty character set
    too. *)
Theorem zero_columns_raise (font_name : string) (font_size : Z)
    (character_set : string) :
  (∀ r t, generate_sprite_sheet font_name font_size character_set 0 ≠ (inr r, t))
  ∧ (∀ handle fitted,
       outcome (find_system_font font_name) = inr handle →
       outcome (calculate_optimal_font_size handle font_size CELL_SIZE) = inr fitted →
       outcome (generate_sprite_sheet font_name font_size character_set 0)
       = inl ZeroDivisionError).
Proof.
  split.
  - intros [img md] t Hrun.
    apply generate_sprite_sheet_inv in Hrun as (q & Hq & _).
    now apply true_div_Some_nonzero in Hq.
  - intros handle [font actual_size] Hfind Hfit.
    unfold generate_sprite_sheet. rewrite outcome_bind, Hfind.
    rewrite outcome_bind, Hfit. cbv beta iota zeta.
    rewrite (outcome_bind (arith _)), outcome_arith. reflexivity.
Qed.

(** X15.  Requests above what fits give the same sheet: when a request
    yields the fitted size [s] (other than by the size-8 fallback of a request
    below 8), every request between [s] and the original one yields the same
    image and the same metadata. *)
Theorem oversized_request_same_sheet (font_name : string) (font_size : Z)
    (character_set : string) (columns : Z)
    (img : Canvas) (md : Metadata.t) (t : list event) :
  generate_sprite_sheet font_name font_size character_set columns
  = (inr (img, md), t) →
  Metadata.font_size md ≠ 8 ∨ 8 ≤ font_size →
  ∀ n, Metadata.font_size md ≤ n ≤ font_size →
       outcome (generate_sprite_sheet font_name n character_set columns)
       = inr (img, md).
Proof.
  intros Hrun Hs n Hn.
  destruct (generate_font _ _ _ _ _ _ _ Hrun) as (handle & font & Hfind & Hfit).
  pose proof (fitted_size_stable _ _ _ _ _ Hfit Hs n Hn) as Hfit'.
  assert (Hout : outcome (generate_sprite_sheet font_name font_size
                            character_set columns) = inr (img, md))
    by (unfold outcome; now rewrite Hrun).
  rewrite <- Hout. unfold generate_sprite_sheet.
  rewrite !outcome_bind, Hfind. rewrite !outcome_bind, Hfit, Hfit'. reflexivity.
Qed.

End SheetFacts.

(** ** File names *)

Lemma list_ascii_of_string_app (s1 s2 : string) :
  list_ascii_of_string (s1 +:+ s2)
  = list_ascii_of_string s1 ++ list_ascii_of_string s2.
Proof. induction s1 as [|c s1 IH]; simpl; [reflexivity|]. now rewrite IH. Qed.

Lemma list_ascii_of_string_inj (s1 s2 : string) :
  list_ascii_of_string s1 = list_ascii_of_string s2 → s1 = s2.
Proof.
  intros Heq.
  rewrite <- (string_of_list_ascii_of_string s1),
          <- (string_of_list_ascii_of_string s2).
  now rewrite Heq.
Qed.

Lemma app_inv_tail_string (s1 s2 t : string) : s1 +:+ t = s2 +:+ t → s1 = s2.
Proof.
  intros Heq. apply list_ascii_of_string_inj.
  apply (f_equal list_ascii_of_string) in Heq.
  rewrite !list_ascii_of_string_app in Heq. now apply app_inv_tail in Heq.
Qed.

(** Splitting at the last occurrence of a separator is unique. *)
Lemma split_at_last {A} (x : A) (l1 l2 r1 r2 : list A) :
  x ∉ r1 → x ∉ r2 →
  l1 ++ x :: r1 = l2 ++ x :: r2 → l1 = l2 ∧ r1 = r2.
Proof.
  intros H1 H2 Heq.
  apply (f_equal (@List.rev A)) in Heq.
  rewrite !rev_app_distr in Heq. simpl in Heq. rewrite <- !app_assoc in Heq.
  simpl in Heq.
  assert (Hgen : ∀ a b c d : list A,
             x ∉ a → x ∉ b → a ++ x :: c = b ++ x :: d → a = b ∧ c = d).
  { clear. induction a as [|y a IH]; intros [|z b] c d Ha Hb Heq; simpl in Heq.
    - injection Heq as <-. auto.
    - injection Heq as -> _. exfalso. apply Hb. left.
    - injection Heq as <- _. exfalso. apply Ha. left.
    - injection Heq as <- Heq.
      destruct (IH b c d) as [-> ->]; try assumption; auto.
      + intros Hin. apply Ha. now right.
      + intros Hin. apply Hb. now right. }
  destruct (Hgen (List.rev r1) (List.rev r2) (List.rev l1) (List.rev l2))
    as [Hr Hl]; try assumption.
  - rewrite list_elem_of_In, <- in_rev, <- list_elem_of_In. assumption.
  - rewrite list_elem_of_In, <- in_rev, <- list_elem_of_In. assumption.
  - split.
    + rewrite <- (rev_involutive l1), <- (rev_involutive l2). now rewrite Hl.
    + rewrite <- (rev_involutive r1), <- (rev_involutive r2). now rewrite Hr.
Qed.

Ltac absent_char := rewrite list_elem_of_In; simpl; intuition discriminate.

(** The characters of a printed integer are digits or the minus sign. *)
Lemma pretty_N_go_chars (Q : ascii → Prop) :
  (∀ d, Q (pretty_N_char d)) →
  ∀ x s, Forall Q (list_ascii_of_string s) →
         Forall Q (list_ascii_of_string (pretty_N_go x s)).
Proof.
  intros Hdigit x. induction (N.lt_wf_0 x) as [x _ IH]. intros s Hs.
  destruct (N.eq_dec x 0%N) as [->|Hx].
  - now rewrite pretty_N_go_0.
  - rewrite pretty_N_go_step by lia. apply IH.
    + apply N.div_lt; lia.
    + simpl. constructor; [apply Hdigit|assumption].
Qed.

Lemma pretty_Z_chars (Q : ascii → Prop) :
  (∀ d, Q (pretty_N_char d)) → Q "-"%char →
  ∀ z : Z, Forall Q (list_ascii_of_string (pretty z)).
Proof.
  intros Hdigit Hminus z.
  assert (HN : ∀ n : N, Forall Q (list_ascii_of_string (pretty n))).
  { intros n. unfold pretty, pretty_N. destruct (decide (n = 0%N)).
    - simpl. constructor; [apply (Hdigit 0%N)|constructor].
    - apply pretty_N_go_chars; [assumption|constructor]. }
  destruct z as [|p|p].
  - simpl. constructor; [apply (Hdigit 0%N)|constructor].
  - apply (HN (Npos p)).
  - change (pretty (Zneg p)) with ("-" +:+ pretty (Npos p)).
    simpl. constructor; [assumption|apply HN].
Qed.

Lemma pretty_N_char_cases (d : N) :
  pretty_N_char d ∈ list_ascii_of_string "0123456789".
Proof.
  unfold pretty_N_char. simpl.
  repeat case_match;
    repeat first [apply list_elem_of_here | apply list_elem_of_further].
Qed.

Lemma pretty_Z_avoids (c : ascii) (z : Z) :
  c ∉ list_ascii_of_string "-0123456789" →
  c ∉ list_ascii_of_string (pretty z).
Proof.
  intros Hc Hin.
  assert (H : Forall (fun d => d ∈ list_ascii_of_string "-0123456789")
                (list_ascii_of_string (pretty z))).
  { apply pretty_Z_chars.
    - intros d. simpl. right. apply pretty_N_char_cases.
    - simpl. left. }
  rewrite Forall_forall in H. apply Hc, H, Hin.
Qed.

Lemma str_replace_chars (old new : ascii) (s : string) :
  old ≠ new → old ∉ list_ascii_of_string (str_replace old new s).
Proof.
  intros Hne. induction s as [|c s IH]; simpl.
  - apply not_elem_of_nil.
  - apply not_elem_of_cons. split; [|assumption].
    destruct (Ascii.eqb_spec c old); congruence.
Qed.

Lemma base_name_inj (n n' : string) (s s' : Z) :
  base_name n s = base_name n' s' →
  str_replace " " "_" n = str_replace " " "_" n' ∧ s = s'.
Proof.
  unfold base_name. intros Heq.
  apply (f_equal list_ascii_of_string) in Heq.
  rewrite !list_ascii_of_string_app in Heq. simpl in Heq.
  apply split_at_last in Heq as [Hn Hs].
  - split; [now apply list_ascii_of_string_inj|].
    apply list_ascii_of_string_inj in Hs. now apply (inj pretty) in Hs.
  - apply pretty_Z_avoids. absent_char.
  - apply pretty_Z_avoids. absent_char.
Qed.

(** X16.  Two sheets get the same image file name, and likewise the same
    JSON file name, exactly when their fitted sizes are equal and their font
    names agree once spaces are replaced by underscores.  An image file name
    is never a JSON file name. *)
Theorem sheet_file_names_collide (n n' : string) (s s' : Z) :
  (image_filename n s = image_filename n' s'
   ↔ str_replace " " "_" n = str_replace " " "_" n' ∧ s = s')
  ∧ (json_filename n s = json_filename n' s'
     ↔ str_replace " " "_" n = str_replace " " "_" n' ∧ s = s')
  ∧ image_filename n s ≠ json_filename n' s'.
Proof.
  split; [|split].
  - split.
    + intros Heq. apply app_inv_tail_string in Heq. now apply base_name_inj.
    + intros [Hn ->]. unfold image_filename, base_name. now rewrite Hn.
  - split.
    + intros Heq. apply app_inv_tail_string in Heq. now apply base_name_inj.
    + intros [Hn ->]. unfold json_filename, base_name. now rewrite Hn.
  - intros Heq. apply (f_equal list_ascii_of_string) in Heq.
    unfold image_filename, json_filename in Heq.
    rewrite !list_ascii_of_string_app in Heq.
    apply (f_equal (@List.rev ascii)) in Heq.
    rewrite !rev_app_distr in Heq. simpl in Heq. discriminate.
Qed.

(** X17.  The file names of a sheet contain no space. *)
Theorem sheet_file_names_no_space (n : string) (s : Z) :
  (" "%char ∉ list_ascii_of_string (image_filename n s))
  ∧ (" "%char ∉ list_ascii_of_string (json_filename n s)).
Proof.
  assert (Hbase : " "%char ∉ list_ascii_of_string (base_name n s)).
  { unfold base_name. rewrite !list_ascii_of_string_app.
    rewrite !not_elem_of_app. split; [|split].
    - now apply str_replace_chars.
    - absent_char.
    - apply pretty_Z_avoids. absent_char. }
  unfold image_filename, json_filename. rewrite !list_ascii_of_string_app.
  rewrite !not_elem_of_app. split; (split; [assumption|]); absent_char.
Qed.

Section Written.

Context {Font Canvas : Type} {P : Platform Font Canvas} {D : Storage Canvas}
  {O : Console}.

(** The ways [generate_sprite_sheet_files] ends. *)
Lemma generate_sprite_sheet_files_cases (font_name : string) (font_size : Z)
    (output_dir character_set : string) (columns : Z) :
  let run := generate_sprite_sheet font_name font_size character_set columns in
  let files := generate_sprite_sheet_files font_name font_size output_dir
                 character_set columns in
  (∃ e, outcome run = inl e ∧ files = (inl (Raised e), map Core (trace run)))
  ∨ ∃ img md,
      run = (inr (img, md), trace run)
      ∧ let image_path :=
          os_path_join output_dir
            (image_filename font_name (Metadata.font_size md)) in
        let json_path :=
          os_path_join output_dir
            (json_filename font_name (Metadata.font_size md)) in
        (files = (inl OSError, map Core (trace run)))
        ∨ (files = (inl OSError, map Core (trace run) ++ [Mkdir output_dir]))
        ∨ (files = (inl OSError,
                    map Core (trace run)
                    ++ [Mkdir output_dir; Save image_path img]))
        ∨ (files = (inr (image_path, json_path),
                    map Core (trace run)
                    ++ [Mkdir output_dir; Save image_path img;
                        Dump json_path md])).
Proof.
  intros run files. unfold files, generate_sprite_sheet_files. fold run.
  destruct run as [[e|[img md]] t]; simpl.
  - left. eauto.
  - right. exists img, md. split; [reflexivity|].
    destruct (mkdir output_dir); [|auto].
    destruct (save img _); [|auto].
    destruct (dump md _); auto.
Qed.

Lemma Core_not_storage (t : list event) (a : action Canvas) :
  a ∈ map Core t → ∃ e, a = Core e.
Proof.
  rewrite list_elem_of_In, in_map_iff. intros (e & <- & _). eauto.
Qed.

(** X18.  [generate_sprite_sheet] writes the JSON file last: when it is
    written the output directory was created, the image was saved just before
    it under the sibling name, the JSON holds the metadata of the run and the
    two paths are returned.  When the generation itself raises, nothing is
    written, not even the directory. *)
Theorem json_written_last (font_name : string) (font_size : Z)
    (output_dir character_set : string) (columns : Z)
    (r : failure + string * string) (t : list (action Canvas)) :
  generate_sprite_sheet_files font_name font_size output_dir character_set columns
  = (r, t) →
  (∀ e, r = inl (Raised e) → ∀ a, a ∈ t → ∃ ev, a = Core ev)
  ∧ (∀ path md,
       Dump path md ∈ t →
       ∃ core img,
         generate_sprite_sheet font_name font_size character_set columns
         = (inr (img, md), core)
         ∧ path = os_path_join output_dir
                    (json_filename font_name (Metadata.font_size md))
         ∧ t = map Core core
               ++ [Mkdir output_dir;
                   Save (os_path_join output_dir
                           (image_filename font_name (Metadata.font_size md))) img;
                   Dump path md]
         ∧ r = inr (os_path_join output_dir
                      (image_filename font_name (Metadata.font_size md)), path)).
Proof.
  intros Hfiles.
  pose proof (generate_sprite_sheet_files_cases font_name font_size output_dir
                character_set columns) as Hcases.
  cbv zeta in Hcases. rewrite Hfiles in Hcases.
  destruct Hcases as [(e & He & Heq)|(img & md & Hrun & Hcases)].
  - injection Heq as -> ->. split.
    + intros _ _ a Ha. now apply Core_not_storage in Ha.
    + intros path md Hin. apply Core_not_storage in Hin as [ev Hev]. discriminate.
  - destruct Hcases as [Heq|[Heq|[Heq|Heq]]]; injection Heq as -> ->.
    + split; [discriminate|].
      intros path md' Hin. apply Core_not_storage in Hin as [ev Hev]. discriminate.
    + split; [discriminate|].
      intros path md' Hin. apply elem_of_app in Hin as [Hin|Hin].
      * apply Core_not_storage in Hin as [ev Hev]. discriminate.
      * apply list_elem_of_singleton in Hin. discriminate.
    + split; [discriminate|].
      intros path md' Hin. apply elem_of_app in Hin as [Hin|Hin].
      * apply Core_not_storage in Hin as [ev Hev]. discriminate.
      * rewrite !elem_of_cons in Hin.
        destruct Hin as [Hin|[Hin|Hin]]; try discriminate. inversion Hin.
    + split; [discriminate|].
      intros path md' Hin. apply elem_of_app in Hin as [Hin|Hin].
      * apply Core_not_storage in Hin as [ev Hev]. discriminate.
      * rewrite !elem_of_cons in Hin.
        destruct Hin as [Hin|[Hin|[Hin|Hin]]]; try discriminate;
          [|inversion Hin].
        injection Hin as -> ->.
        exists (trace (generate_sprite_sheet font_name font_size
                         character_set columns)), img.
        auto.
Qed.

Lemma absolute_names (font_name : string) (s : Z) :
  ∃ image json,
    image_filename (String "/" font_name) s = String "/" image
    ∧ json_filename (String "/" font_name) s = String "/" json.
Proof.
  unfold image_filename, json_filename, base_name. simpl. eauto.
Qed.

(** X19.  Where [os.path.join] returns an absolute second component
    unchanged, as it does on POSIX, the sheet of a font given by an absolute
    path is written beside the font: the returned paths are the file names
    themselves and [output_dir] does not occur in them. *)
Theorem absolute_font_name_ignores_output_dir (font_name : string)
    (font_size : Z) (output_dir character_set : string) (columns : Z)
    (image_path json_path : string) (t : list (action Canvas)) :
  (∀ dir name, os_path_join dir (String "/" name) = String "/" name) →
  generate_sprite_sheet_files (String "/" font_name) font_size output_dir
    character_set columns
  = (inr (image_path, json_path), t) →
  ∃ img md,
    outcome (generate_sprite_sheet (String "/" font_name) font_size
               character_set columns) = inr (img, md)
    ∧ image_path = image_filename (String "/" font_name) (Metadata.font_size md)
    ∧ json_path = json_filename (String "/" font_name) (Metadata.font_size md)
    ∧ Save image_path img ∈ t
    ∧ Dump json_path md ∈ t.
Proof.
  intros Hjoin Hfiles.
  pose proof (generate_sprite_sheet_files_cases (String "/" font_name) font_size
                output_dir character_set columns) as Hcases.
  cbv zeta in Hcases. rewrite Hfiles in Hcases.
  destruct Hcases as [(e & _ & Heq)|(img & md & Hrun & Hcases)]; [discriminate|].
  destruct Hcases as [Heq|[Heq|[Heq|Heq]]]; try discriminate.
  injection Heq as -> -> ->.
  exists img, md.
  destruct (absolute_names font_name (Metadata.font_size md))
    as (image & json & Himage & Hjson).
  rewrite Himage, Hjson.
  rewrite !Hjoin. split; [unfold outcome; now rewrite Hrun|].
  split; [reflexivity|]. split; [reflexivity|].
  split; apply elem_of_app; right; rewrite !elem_of_cons; auto.
Qed.

(** ** The batch *)



Lemma created_app (t1 t2 : list (action Canvas)) :
  created (t1 ++ t2) = created t1 ++ created t2.
Proof. apply omap_app. Qed.

Lemma created_quiet (t : list (action Canvas)) : Forall quiet t → created t = [].
Proof.
  induction 1 as [|x t Hx _ IH]; [reflexivity|].
  destruct x as [| | | |l]; try exact IH. now destruct (Hx l).
Qed.

Section Turns.

Variable a : Args.t.
















End Turns.

End Written.

(** * Runs on concrete platforms *)

(** ** The float model against the Standard Library's IEEE 754 division *)

Example true_div_matches_spec_div :
  Forall (fun '(a, b) => to_spec <$> true_div a b = Some (spec_div a b))
    [(16, 160); (32, 160); (1, 3); (95, 10); (1, 640); (16, 64000000);
     (9007199254740991, 9007199254740992); (7, 1152921504606859321)].
Proof. repeat constructor. Qed.

(** [round(1 / 640, 6)] is 0.001563: the float nearest to 0.0015625 lies
    above it, so the tie of the exact quotient does not arise. *)
Example round6_of_float_tie : round6 <$> true_div 1 640 = Some 1563.
Proof. reflexivity. Qed.

(** ** Locating and fitting *)

(** A bare name that matches no file: the seven candidates are probed, one
    warning is printed, and the default font is returned; the sheet is
    still generated, at the nominal size 10. *)
Example find_system_font_falls_back :
  outcome (find_system_font (P := bare_platform) "Sans")
  = inr (FontObject ("default", 10))
  ∧ printed (trace (find_system_font (P := bare_platform) "Sans"))
    = [FontNotFound "Sans"]
  ∧ length (probed (trace (find_system_font (P := bare_platform) "Sans"))) = 8%nat
  ∧ Metadata.font_size
    <$> sum_rect (fun _ => option Metadata.t) (fun _ => None) Some
          (metadata_of (generate_sprite_sheet (P := bare_platform) "Sans" 12 "AB" 10))
    = Some 10.
Proof. repeat split. Qed.

Lemma find_system_font_resolution_witness :
  find_system_font (P := mono_platform) "Mono"
  = (inr (FontPath "/usr/share/fonts/TTF/Mono.ttf"),
     [Probe "Mono";
      Probe "/usr/share/fonts/truetype/mono/Mono.ttf";
      Probe "/usr/share/fonts/truetype/mono.ttf";
      Probe "/usr/share/fonts/TTF/Mono.ttf"]).
Proof.
  apply (proj1 (proj2 (find_system_font_resolution (P := mono_platform) "Mono"))
           ["/usr/share/fonts/truetype/mono/Mono.ttf";
            "/usr/share/fonts/truetype/mono.ttf"]
           "/usr/share/fonts/TTF/Mono.ttf"
           ["/System/Library/Fonts/Mono.ttf";
            "C:\Windows\Fonts\Mono.ttf";
            "/usr/share/fonts/truetype/dejavu/DejaVuMono.ttf";
            "/usr/share/fonts/truetype/liberation/LiberationMono.ttf"]).
  - reflexivity.
  - reflexivity.
  - intros p Hp. apply elem_of_cons in Hp as [->|Hp]; [reflexivity|].
    apply elem_of_cons in Hp as [->|Hp]; [reflexivity|].
    now apply elem_of_nil in Hp.
  - reflexivity.
Defined.

Lemma size_search_witness :
  outcome (calculate_optimal_font_size (P := mono_platform)
             (FontPath "Mono.ttf") 14 CELL_SIZE)
  = inr (("Mono.ttf", 10), 10)
  ∧ outcome (calculate_optimal_font_size (P := extended_platform)
               (FontPath "Extended.ttf") 14 CELL_SIZE)
    = inr (("Extended.ttf", 6), 6).
Proof.
  split.
  - apply (proj1 (proj2 (proj2 (proj2
             (size_search (P := mono_platform) "Mono.ttf" 14))))).
    + lia.
    + apply (proj2 (proj1 (proj2 (proj2
               (size_search (P := mono_platform) "Mono.ttf" 14))) 10 _)).
      split; [reflexivity|]. split; [eexists; reflexivity|].
      intros c _. exists (0, 0, 10, 12). split; [reflexivity|]. simpl.
      unfold CELL_SIZE. lia.
    + intros s' Hs'.
      assert (s' = 11 ∨ s' = 12 ∨ s' = 13 ∨ s' = 14) as [->|[->|[->| ->]]] by lia;
        reflexivity.
  - apply (proj1 (proj2 (proj2 (proj2
             (size_search (P := extended_platform) "Extended.ttf" 14))))).
    + lia.
    + apply (proj2 (proj1 (proj2 (proj2
               (size_search (P := extended_platform) "Extended.ttf" 14))) 6 _)).
      split; [reflexivity|]. split; [eexists; reflexivity|].
      intros c _. exists (0, 0, 12, 6). split; [reflexivity|]. simpl.
      unfold CELL_SIZE. lia.
    + intros s' Hs'.
      assert (s' = 7 ∨ s' = 8 ∨ s' = 9 ∨ s' = 10 ∨ s' = 11 ∨ s' = 12
              ∨ s' = 13 ∨ s' = 14)
        as [->|[->|[->|[->|[->|[->|[->| ->]]]]]]] by lia;
        reflexivity.
Defined.



(** C7 as stated fails: the ten probe glyphs hold no digit and no
    descender. *)
Lemma probe_set_counterexample :
  ¬ (length probe_chars = 10%nat
     ∧ (∃ c, c ∈ probe_chars ∧ (is_upper c || is_lower c) = true)
     ∧ (∃ c, c ∈ probe_chars ∧ is_digit c = true)
     ∧ (∃ c, c ∈ probe_chars ∧ is_descender c = true)).
Proof.
  intros (_ & _ & (c & Hc & Hdigit) & _).
  assert (Hall : Forall (fun c => is_digit c = false) probe_chars)
    by (repeat constructor).
  rewrite Forall_forall in Hall. rewrite (Hall c Hc) in Hdigit. discriminate.
Qed.

Lemma probe_set_witness :
  0 ≤ 9 ∧ 0 ≤ 11
  ∧ ∀ box, box ∈ replicate 10 (0, 0, 9, 11) → box_width box ≤ 9 ∧ box_height box ≤ 11.
Proof.
  apply (proj1 (proj2 (proj2 (proj2
           (probe_set (P := mono_platform) ("Mono.ttf", 9)))))); reflexivity.
Defined.

(** ** Sheets *)

(** The default character set has 96 characters and 95 entries: its second
    asterisk overwrites the first. *)
Example default_character_set_sheet :
  (fun md => (Metadata.character_count md, size (Metadata.character_map md),
              Metadata.rows md, Metadata.image_width md, Metadata.image_height md,
              Glyph.index <$> Metadata.character_map md !! "*"%char))
  <$> sum_rect (fun _ => option Metadata.t) (fun _ => None) Some
        (metadata_of
           (generate_sprite_sheet (P := mono_platform) "Mono" 12
              DEFAULT_CHARACTER_SET 10))
  = Some (96, 95%nat, 10, 160, 160, Some 89).
Proof. vm_compute. reflexivity. Qed.

Lemma grid_dimensions_witness :
  (∃ rows,
     grid_geometry 2 10 = Some (rows, 10 * CELL_SIZE, rows * CELL_SIZE)
     ∧ (rows - 1) * 10 < 2 ≤ rows * 10
     ∧ rows = (2 + 10 - 1) `div` 10)
  ∧ ∃ img md t,
    generate_sprite_sheet (P := mono_platform) "Mono" 12 "AB" 10
    = (inr (img, md), t)
    ∧ (Metadata.rows md - 1) * 10 < 2 ≤ Metadata.rows md * 10
    ∧ Metadata.rows md = (2 + 10 - 1) `div` 10
    ∧ Metadata.image_width md = 10 * Metadata.cell_width md
    ∧ Metadata.image_height md = Metadata.rows md * Metadata.cell_height md
    ∧ Metadata.cell_width md = 16 ∧ Metadata.cell_height md = 16
    ∧ Metadata.columns md = 10
    ∧ Metadata.character_count md = 2.
Proof.
  split.
  - apply (proj1 (grid_dimensions (P := mono_platform) "Mono" 12 "AB" 10
                    ltac:(lia) ltac:(vm_compute; reflexivity))).
    vm_compute. discriminate.
  - destruct (generate_sprite_sheet (P := mono_platform) "Mono" 12 "AB" 10)
      as [[e|[img md]] t] eqn:Hrun; [vm_compute in Hrun; discriminate|].
    exists img, md, t. split; [reflexivity|].
    apply (proj2 (grid_dimensions (P := mono_platform) "Mono" 12 "AB" 10
                    ltac:(lia) ltac:(vm_compute; reflexivity)) img md t Hrun).
Defined.



(** C5 as stated fails: with "ABC" on 3 columns the right edge of A is
    stored as 0.333333, which is not the float 16 / 48.  (A stored decimal
    [d] is the float [d / 1000000].) *)
Lemma row_major_layout_counterexample :
  ¬ (∀ img md t (i : nat) c,
       generate_sprite_sheet (P := mono_platform) "Mono" 12 "ABC" 3
       = (inr (img, md), t) →
       list_ascii_of_string "ABC" !! i = Some c →
       ∃ g,
         Metadata.character_map md !! c = Some g
         ∧ Glyph.index g = Z.of_nat i
         ∧ Glyph.x g = (Z.of_nat i `mod` 3) * CELL_SIZE
         ∧ Glyph.y g = (Z.of_nat i `div` 3) * CELL_SIZE
         ∧ true_div (Glyph.u0 g) 1000000
           = true_div (Glyph.x g) (Metadata.image_width md)
         ∧ true_div (Glyph.u1 g) 1000000
           = true_div (Glyph.x g + CELL_SIZE) (Metadata.image_width md)
         ∧ true_div (Glyph.v0 g) 1000000
           = true_div (Glyph.y g) (Metadata.image_height md)
         ∧ true_div (Glyph.v1 g) 1000000
           = true_div (Glyph.y g + CELL_SIZE) (Metadata.image_height md)).
Proof.
  destruct (generate_sprite_sheet (P := mono_platform) "Mono" 12 "ABC" 3)
    as [[e|[img md]] t] eqn:Hrun; [vm_compute in Hrun; discriminate|].
  intros Hclaim.
  destruct (Hclaim img md t 0%nat "A"%char eq_refl eq_refl)
    as (g & Hg & _ & _ & _ & _ & Hu1 & _).
  vm_compute in Hrun. injection Hrun as _ <- _.
  vm_compute in Hg. injection Hg as <-.
  vm_compute in Hu1. discriminate.
Qed.

(** The same comparison holds in the example of the claim: 0.1 is the
    float 16 / 160 and 0.2 the float 32 / 160. *)
Example stored_uv_of_the_example :
  true_div 100000 1000000 = true_div 16 160
  ∧ true_div 200000 1000000 = true_div 32 160.
Proof. split; vm_compute; reflexivity. Qed.

Lemma row_major_layout_witness :
  ∃ img md t,
    generate_sprite_sheet (P := mono_platform) "Mono" 12 "AB" 10
    = (inr (img, md), t)
    ∧ Metadata.rows md = 1
    ∧ Metadata.image_width md = 160
    ∧ Metadata.image_height md = 16
    ∧ Metadata.character_map md !! "A"%char
      = Some (Glyph.mk 0 0 0 0 0 100000 1000000)
    ∧ Metadata.character_map md !! "B"%char
      = Some (Glyph.mk 1 16 0 100000 0 200000 1000000).
Proof.
  destruct (generate_sprite_sheet (P := mono_platform) "Mono" 12 "AB" 10)
    as [[e|[img md]] t] eqn:Hrun; [vm_compute in Hrun; discriminate|].
  exists img, md, t. split; [reflexivity|].
  apply (proj2 (row_major_layout (P := mono_platform) "Mono" 12 "AB" 10 ltac:(lia))
           img md t Hrun).
Defined.


Lemma render_failure_keeps_metadata_witness :
  render_char (P := mono_platform) ("Mono.ttf", 10) 10 160 16 ([], ∅) 1 "B"
  = (inr ([], {[ "B"%char := Glyph.mk 1 16 0 100000 0 200000 1000000 ]}),
     [Print (CouldNotRender "B")]).
Proof.
  apply (proj1 render_failure_keeps_metadata
           toy_font toy_canvas mono_platform ("Mono.ttf", 10) 10 160 16 1 "B"%char
           [] ∅ (Glyph.mk 1 16 0 100000 0 200000 1000000));
    reflexivity.
Defined.

Lemma character_count_counts_occurrences_witness :
  ∃ img md t,
    generate_sprite_sheet (P := mono_platform) "Mono" 12 "AA" 10
    = (inr (img, md), t)
    ∧ Metadata.character_count md = 2
    ∧ size (Metadata.character_map md) = 1%nat
    ∧ Z.of_nat (size (Metadata.character_map md)) < Metadata.character_count md.
Proof.
  destruct (generate_sprite_sheet (P := mono_platform) "Mono" 12 "AA" 10)
    as [[e|[img md]] t] eqn:Hrun; [vm_compute in Hrun; discriminate|].
  destruct (character_count_counts_occurrences (P := mono_platform)
              "Mono" 12 "AA" 10 img md t Hrun) as (Hcount & Hsize & Hless).
  exists img, md, t. split; [reflexivity|]. split; [exact Hcount|].
  split; [exact Hsize|]. apply Hless.
  intros Hnodup. apply NoDup_cons in Hnodup as [Hnotin _].
  apply Hnotin, list_elem_of_here.
Defined.

(** ** Locating and fitting, continued *)

Lemma located_font_exists_witness :
  path_exists (Platform := mono_platform) "/usr/share/fonts/TTF/Mono.ttf" = true
  ∧ ("/usr/share/fonts/TTF/Mono.ttf" = "Mono"
     ∨ "/usr/share/fonts/TTF/Mono.ttf" ∈ font_paths "Mono").
Proof.
  apply (proj1 (located_font_exists (P := mono_platform) "Mono")
           "/usr/share/fonts/TTF/Mono.ttf").
  reflexivity.
Defined.

Lemma probes_are_a_prefix_witness :
  printed (trace (find_system_font (P := bare_platform) "Mono"))
  = [FontNotFound "Mono"].
Proof.
  apply (proj2 (proj2 (proj2 (proj2
           (probes_are_a_prefix (P := bare_platform) "Mono"))))).
  split; [reflexivity|]. intros p _. reflexivity.
Defined.

Lemma fitted_size_range_witness :
  (5 ≤ 10 ≤ 14
   ∧ truetype (Platform := mono_platform) "Mono.ttf" 10 = Some ("Mono.ttf", 10))
  ∨ (10 = 8
     ∧ (truetype (Platform := mono_platform) "Mono.ttf" 8 = Some ("Mono.ttf", 10)
        ∨ (truetype (Platform := mono_platform) "Mono.ttf" 8 = None
           ∧ load_default (Platform := mono_platform) = Some ("Mono.ttf", 10)))).
Proof.
  apply (proj1 (fitted_size_range (P := mono_platform) "Mono.ttf" 14 CELL_SIZE)
           ("Mono.ttf", 10) 10).
  reflexivity.
Defined.

Lemma fitter_warnings_witness :
  trace (calculate_optimal_font_size (P := bare_platform)
           (FontPath "Mono.ttf") 6 CELL_SIZE)
  = [Print (CouldNotLoad 6); Print (CouldNotLoad 5)].
Proof.
  apply (proj2 (fitter_warnings (P := bare_platform) "Mono.ttf" 6 CELL_SIZE)).
  intros s _. reflexivity.
Defined.

Lemma cell_too_small_for_any_size_witness :
  outcome (calculate_optimal_font_size (P := mono_platform)
             (FontPath "Mono.ttf") 14 3)
  = inr (("Mono.ttf", 8), 8).
Proof.
  apply (cell_too_small_for_any_size (P := mono_platform) "Mono.ttf" 14 3). lia.
Defined.

(** ** Sheets, continued *)

Lemma cells_inside_image_witness :
  ∃ img md t g,
    generate_sprite_sheet (P := mono_platform) "Mono" 12 "AB" 10
    = (inr (img, md), t)
    ∧ Metadata.character_map md !! "B"%char = Some g
    ∧ 0 ≤ Glyph.x g ∧ Glyph.x g + CELL_SIZE ≤ Metadata.image_width md
    ∧ 0 ≤ Glyph.y g ∧ Glyph.y g + CELL_SIZE ≤ Metadata.image_height md
    ∧ Glyph.x g `mod` CELL_SIZE = 0 ∧ Glyph.y g `mod` CELL_SIZE = 0.
Proof.
  destruct (generate_sprite_sheet (P := mono_platform) "Mono" 12 "AB" 10)
    as [[e|[img md]] t] eqn:Hrun; [vm_compute in Hrun; discriminate|].
  destruct (Metadata.character_map md !! "B"%char) as [g|] eqn:Hg;
    [|vm_compute in Hrun; injection Hrun as _ <- _; vm_compute in Hg; discriminate].
  exists img, md, t, g. split; [reflexivity|]. split; [exact Hg|].
  apply (cells_inside_image (P := mono_platform) "Mono" 12 "AB" 10 img md t
           ltac:(lia) ltac:(vm_compute; reflexivity) Hrun "B"%char g Hg).
Defined.

Lemma index_round_trip_witness :
  ∃ img md t g,
    generate_sprite_sheet (P := mono_platform) "Mono" 12 "AB" 10
    = (inr (img, md), t)
    ∧ Metadata.character_map md !! "B"%char = Some g
    ∧ 0 ≤ Glyph.index g < Metadata.character_count md
    ∧ list_ascii_of_string "AB" !! Z.to_nat (Glyph.index g) = Some "B"%char
    ∧ Glyph.index g
      = (Glyph.y g `div` CELL_SIZE) * 10 + Glyph.x g `div` CELL_SIZE.
Proof.
  destruct (generate_sprite_sheet (P := mono_platform) "Mono" 12 "AB" 10)
    as [[e|[img md]] t] eqn:Hrun; [vm_compute in Hrun; discriminate|].
  destruct (Metadata.character_map md !! "B"%char) as [g|] eqn:Hg;
    [|vm_compute in Hrun; injection Hrun as _ <- _; vm_compute in Hg; discriminate].
  exists img, md, t, g. split; [reflexivity|]. split; [exact Hg|].
  apply (index_round_trip (P := mono_platform) "Mono" 12 "AB" 10 img md t
           ltac:(lia) Hrun "B"%char g Hg).
Defined.

Lemma distinct_characters_distinct_cells_witness :
  ∃ img md t g1 g2,
    generate_sprite_sheet (P := mono_platform) "Mono" 12 "AB" 10
    = (inr (img, md), t)
    ∧ Metadata.character_map md !! "A"%char = Some g1
    ∧ Metadata.character_map md !! "B"%char = Some g2
    ∧ (Glyph.x g1, Glyph.y g1) ≠ (Glyph.x g2, Glyph.y g2)
    ∧ Glyph.index g1 ≠ Glyph.index g2.
Proof.
  destruct (generate_sprite_sheet (P := mono_platform) "Mono" 12 "AB" 10)
    as [[e|[img md]] t] eqn:Hrun; [vm_compute in Hrun; discriminate|].
  destruct (Metadata.character_map md !! "A"%char) as [g1|] eqn:Hg1;
    [|vm_compute in Hrun; injection Hrun as _ <- _; vm_compute in Hg1; discriminate].
  destruct (Metadata.character_map md !! "B"%char) as [g2|] eqn:Hg2;
    [|vm_compute in Hrun; injection Hrun as _ <- _; vm_compute in Hg2; discriminate].
  exists img, md, t, g1, g2. split; [reflexivity|].
  split; [exact Hg1|]. split; [exact Hg2|].
  apply (distinct_characters_distinct_cells (P := mono_platform) "Mono" 12 "AB" 10
           img md t ltac:(lia) Hrun "A"%char "B"%char g1 g2 Hg1 Hg2).
  discriminate.
Defined.

Lemma uv_never_inverted_witness :
  ∃ img md t g,
    generate_sprite_sheet (P := mono_platform) "Mono" 12 "AB" 10
    = (inr (img, md), t)
    ∧ Metadata.character_map md !! "B"%char = Some g
    ∧ (0 ≤ Glyph.u0 g ∧ Glyph.u0 g ≤ Glyph.u1 g ∧ Glyph.u1 g ≤ 1000000)
    ∧ (0 ≤ Glyph.v0 g ∧ Glyph.v0 g ≤ Glyph.v1 g ∧ Glyph.v1 g ≤ 1000000).
Proof.
  destruct (generate_sprite_sheet (P := mono_platform) "Mono" 12 "AB" 10)
    as [[e|[img md]] t] eqn:Hrun; [vm_compute in Hrun; discriminate|].
  destruct (Metadata.character_map md !! "B"%char) as [g|] eqn:Hg;
    [|vm_compute in Hrun; injection Hrun as _ <- _; vm_compute in Hg; discriminate].
  exists img, md, t, g. split; [reflexivity|]. split; [exact Hg|].
  apply (uv_never_inverted (P := mono_platform) "Mono" 12 "AB" 10 img md t
           ltac:(lia) ltac:(vm_compute; reflexivity) Hrun "B"%char g Hg).
Defined.

Lemma uv_edges_exact_witness :
  ∃ img md t g,
    generate_sprite_sheet (P := mono_platform) "Mono" 12 "AB" 10
    = (inr (img, md), t)
    ∧ Metadata.character_map md !! "A"%char = Some g
    ∧ Glyph.x g = 0 ∧ Glyph.y g = 0
    ∧ Glyph.y g + CELL_SIZE = Metadata.image_height md
    ∧ Glyph.u0 g = 0 ∧ Glyph.v0 g = 0 ∧ Glyph.v1 g = 1000000.
Proof.
  destruct (generate_sprite_sheet (P := mono_platform) "Mono" 12 "AB" 10)
    as [[e|[img md]] t] eqn:Hrun; [vm_compute in Hrun; discriminate|].
  destruct (Metadata.character_map md !! "A"%char) as [g|] eqn:Hg;
    [|vm_compute in Hrun; injection Hrun as _ <- _; vm_compute in Hg; discriminate].
  exists img, md, t, g. split; [reflexivity|]. split; [exact Hg|].
  assert (Hx : Glyph.x g = 0
               ∧ Glyph.y g = 0
               ∧ Glyph.y g + CELL_SIZE = Metadata.image_height md).
  { pose proof Hrun as Hrun'. vm_compute in Hrun'. injection Hrun' as _ <- _.
    vm_compute in Hg. injection Hg as <-. repeat split. }
  destruct Hx as (Hx & Hy & Hh).
  destruct (uv_edges_exact (P := mono_platform) "Mono" 12 "AB" 10 img md t
              ltac:(lia) Hrun "A"%char g Hg) as (Hu0 & Hv0 & _ & Hv1).
  repeat split; auto.
Defined.

Lemma uv_tiling_witness :
  ∃ img md t g g',
    generate_sprite_sheet (P := mono_platform) "Mono" 12 "AB" 10
    = (inr (img, md), t)
    ∧ Metadata.character_map md !! "A"%char = Some g
    ∧ Metadata.character_map md !! "B"%char = Some g'
    ∧ Glyph.index g' = Glyph.index g + 1
    ∧ Glyph.x g + CELL_SIZE < Metadata.image_width md
    ∧ Glyph.u0 g' = Glyph.u1 g
    ∧ Glyph.v0 g' = Glyph.v0 g
    ∧ Glyph.v1 g' = Glyph.v1 g.
Proof.
  destruct (generate_sprite_sheet (P := mono_platform) "Mono" 12 "AB" 10)
    as [[e|[img md]] t] eqn:Hrun; [vm_compute in Hrun; discriminate|].
  destruct (Metadata.character_map md !! "A"%char) as [g|] eqn:Hg;
    [|vm_compute in Hrun; injection Hrun as _ <- _; vm_compute in Hg; discriminate].
  destruct (Metadata.character_map md !! "B"%char) as [g'|] eqn:Hg';
    [|vm_compute in Hrun; injection Hrun as _ <- _; vm_compute in Hg'; discriminate].
  exists img, md, t, g, g'. split; [reflexivity|].
  split; [exact Hg|]. split; [exact Hg'|].
  assert (Hi : Glyph.index g' = Glyph.index g + 1
               ∧ Glyph.x g + CELL_SIZE < Metadata.image_width md).
  { pose proof Hrun as Hrun'. vm_compute in Hrun'. injection Hrun' as _ <- _.
    vm_compute in Hg, Hg'. injection Hg as <-. injection Hg' as <-.
    split; reflexivity. }
  destruct Hi as [Hi Hx]. split; [exact Hi|]. split; [exact Hx|].
  apply (proj1 (uv_tiling (P := mono_platform) "Mono" 12 "AB" 10 img md t
                  ltac:(lia) Hrun "A"%char "B"%char g g' Hg Hg') Hi Hx).
Defined.

Lemma metadata_font_fields_witness :
  ∃ img md t,
    generate_sprite_sheet (P := mono_platform) "Mono" 12 "AB" 10
    = (inr (img, md), t)
    ∧ Metadata.font_name md = "Mono"
    ∧ (5 ≤ Metadata.font_size md ≤ 12 ∨ Metadata.font_size md = 8).
Proof.
  destruct (generate_sprite_sheet (P := mono_platform) "Mono" 12 "AB" 10)
    as [[e|[img md]] t] eqn:Hrun; [vm_compute in Hrun; discriminate|].
  exists img, md, t. split; [reflexivity|].
  destruct (metadata_font_fields (P := mono_platform) "Mono" 12 "AB" 10 img md t Hrun)
    as (Hname & _ & _ & Hsize).
  split; [exact Hname|]. apply Hsize. right.
  exists "/usr/share/fonts/TTF/Mono.ttf". split; [|reflexivity].
  repeat first [apply list_elem_of_here | apply list_elem_of_further].
Defined.

Lemma empty_character_set_witness :
  ∃ img md t,
    generate_sprite_sheet (P := mono_platform) "Mono" 12 "" 10
    = (inr (img, md), t)
    ∧ 10 ≠ 0
    ∧ Metadata.character_count md = 0
    ∧ Metadata.rows md = 0
    ∧ Metadata.image_width md = 10 * CELL_SIZE
    ∧ Metadata.image_height md = 0
    ∧ Metadata.character_map md = ∅
    ∧ image_new (Platform := mono_platform) (10 * CELL_SIZE) 0 = Some img.
Proof.
  destruct (generate_sprite_sheet (P := mono_platform) "Mono" 12 "" 10)
    as [[e|[img md]] t] eqn:Hrun; [vm_compute in Hrun; discriminate|].
  exists img, md, t. split; [reflexivity|].
  apply (empty_character_set (P := mono_platform) "Mono" 12 10 img md t Hrun).
Defined.

Lemma zero_columns_raise_witness :
  outcome (generate_sprite_sheet (P := mono_platform) "Mono" 12 "AB" 0)
  = inl ZeroDivisionError.
Proof.
  apply (proj2 (zero_columns_raise (P := mono_platform) "Mono" 12 "AB")
           (FontPath "/usr/share/fonts/TTF/Mono.ttf")
           (("/usr/share/fonts/TTF/Mono.ttf", 10), 10));
    reflexivity.
Defined.

Lemma oversized_request_same_sheet_witness :
  ∃ img md t,
    generate_sprite_sheet (P := mono_platform) "Mono" 14 "AB" 10
    = (inr (img, md), t)
    ∧ Metadata.font_size md = 10
    ∧ outcome (generate_sprite_sheet (P := mono_platform) "Mono" 12 "AB" 10)
      = inr (img, md).
Proof.
  destruct (generate_sprite_sheet (P := mono_platform) "Mono" 14 "AB" 10)
    as [[e|[img md]] t] eqn:Hrun; [vm_compute in Hrun; discriminate|].
  assert (Hsize : Metadata.font_size md = 10).
  { pose proof Hrun as Hrun'. vm_compute in Hrun'. injection Hrun' as _ <- _.
    reflexivity. }
  exists img, md, t. split; [reflexivity|]. split; [exact Hsize|].
  apply (oversized_request_same_sheet (P := mono_platform) "Mono" 14 "AB" 10
           img md t Hrun); lia.
Defined.

(** ** Files and batches *)

Example sheet_files_of_a_font_file :
  generate_sprite_sheet_files (P := mono_platform) (D := posix_storage)
    "Mono" 12 "out" "A" 10
  = (inr ("out/Mono_10.sheet.png", "out/Mono_10.sheet.json"),
     [Core (Probe "Mono");
      Core (Probe "/usr/share/fonts/truetype/mono/Mono.ttf");
      Core (Probe "/usr/share/fonts/truetype/mono.ttf");
      Core (Probe "/usr/share/fonts/TTF/Mono.ttf");
      Mkdir "out";
      Save "out/Mono_10.sheet.png" [(8, 8, "A"%char)];
      Dump "out/Mono_10.sheet.json"
        (Metadata.mk "Mono" 10 16 16 10 1 160 16 1
           {[ "A"%char := Glyph.mk 0 0 0 0 0 100000 1000000 ]})]).
Proof. vm_compute. reflexivity. Qed.

Example image_kept_when_json_fails :
  generate_sprite_sheet_files (P := mono_platform) (D := png_only_storage)
    "Mono" 12 "out" "A" 10
  = (inl OSError,
     [Core (Probe "Mono");
      Core (Probe "/usr/share/fonts/truetype/mono/Mono.ttf");
      Core (Probe "/usr/share/fonts/truetype/mono.ttf");
      Core (Probe "/usr/share/fonts/TTF/Mono.ttf");
      Mkdir "out";
      Save "out/Mono_10.sheet.png" [(8, 8, "A"%char)]]).
Proof. vm_compute. reflexivity. Qed.

Example default_batch :
  created (main (P := mono_platform) (D := posix_storage) (O := utf8_console)
             (Args.mk "DejaVuSans" 12 (Some [12; 24]) "./output" 10 None)).2
  = ["./output/DejaVuSans_10.sheet.png"; "./output/DejaVuSans_10.sheet.json";
     "./output/DejaVuSans_10.sheet.png"; "./output/DejaVuSans_10.sheet.json"].
Proof. vm_compute. reflexivity. Qed.

Example batch_on_an_ascii_output :
  main (P := mono_platform) (D := posix_storage) (O := ascii_console)
    (Args.mk "Mono" 12 (Some [12; 24]) "out" 10 (Some "A"))
  = (UnicodeEncodeError,
     [Say (Banner "Mono"); Say (CharacterCount 1); Say CellLine;
      Say (OutputLine "out"); Say Blank;
      Say (Generating 12);
      Core (Probe "Mono");
      Core (Probe "/usr/share/fonts/truetype/mono/Mono.ttf");
      Core (Probe "/usr/share/fonts/truetype/mono.ttf");
      Core (Probe "/usr/share/fonts/TTF/Mono.ttf");
      Mkdir "out";
      Save "out/Mono_10.sheet.png" [(8, 8, "A"%char)];
      Dump "out/Mono_10.sheet.json"
        (Metadata.mk "Mono" 10 16 16 10 1 160 16 1
           {[ "A"%char := Glyph.mk 0 0 0 0 0 100000 1000000 ]})]).
Proof. vm_compute. reflexivity. Qed.

Lemma sheet_file_names_collide_witness :
  image_filename "DejaVu Sans" 12 = image_filename "DejaVu_Sans" 12.
Proof.
  apply (proj2 (proj1 (sheet_file_names_collide "DejaVu Sans" "DejaVu_Sans" 12 12))).
  split; reflexivity.
Defined.

Lemma json_written_last_witness :
  ∃ r t path md core img,
    generate_sprite_sheet_files (P := mono_platform) (D := posix_storage)
      "Mono" 12 "out" "A" 10 = (r, t)
    ∧ Dump path md ∈ t
    ∧ generate_sprite_sheet (P := mono_platform) "Mono" 12 "A" 10
      = (inr (img, md), core)
    ∧ path = posix_join "out" (json_filename "Mono" (Metadata.font_size md))
    ∧ t = map Core core
          ++ [Mkdir "out";
              Save (posix_join "out"
                      (image_filename "Mono" (Metadata.font_size md))) img;
              Dump path md]
    ∧ r = inr (posix_join "out" (image_filename "Mono" (Metadata.font_size md)),
               path).
Proof.
  destruct (generate_sprite_sheet_files (P := mono_platform) (D := posix_storage)
              "Mono" 12 "out" "A" 10) as [r t] eqn:Hfiles.
  destruct (generate_sprite_sheet (P := mono_platform) "Mono" 12 "A" 10)
    as [[e|[img md]] core] eqn:Hrun; [vm_compute in Hrun; discriminate|].
  assert (Hin : Dump (posix_join "out" (json_filename "Mono" (Metadata.font_size md)))
                  md ∈ t).
  { pose proof Hfiles as Hfiles'. unfold generate_sprite_sheet_files in Hfiles'.
    rewrite Hrun in Hfiles'. simpl in Hfiles'. injection Hfiles' as _ <-.
    apply elem_of_app. right.
    repeat first [apply list_elem_of_here | apply list_elem_of_further]. }
  destruct (proj2 (json_written_last (P := mono_platform) (D := posix_storage)
                     "Mono" 12 "out" "A" 10 r t Hfiles) _ _ Hin)
    as (core' & img' & Hrun' & Hpath & Ht & Hr).
  rewrite Hrun in Hrun'. injection Hrun' as <- <-.
  exists r, t, (posix_join "out" (json_filename "Mono" (Metadata.font_size md))),
    md, core, img.
  split; [reflexivity|]. split; [exact Hin|]. split; [reflexivity|].
  split; [reflexivity|]. split; [exact Ht|exact Hr].
Defined.

Lemma absolute_font_name_ignores_output_dir_witness :
  ∃ t img md,
    generate_sprite_sheet_files (P := mono_platform) (D := posix_storage)
      "/usr/share/fonts/TTF/Mono.ttf" 12 "out" "A" 10
    = (inr ("/usr/share/fonts/TTF/Mono.ttf_10.sheet.png",
            "/usr/share/fonts/TTF/Mono.ttf_10.sheet.json"), t)
    ∧ outcome (generate_sprite_sheet (P := mono_platform)
                 "/usr/share/fonts/TTF/Mono.ttf" 12 "A" 10) = inr (img, md)
    ∧ Save "/usr/share/fonts/TTF/Mono.ttf_10.sheet.png" img ∈ t
    ∧ Dump "/usr/share/fonts/TTF/Mono.ttf_10.sheet.json" md ∈ t.
Proof.
  destruct (generate_sprite_sheet_files (P := mono_platform) (D := posix_storage)
              "/usr/share/fonts/TTF/Mono.ttf" 12 "out" "A" 10)
    as [r t] eqn:Hfiles.
  assert (Hr : r = inr ("/usr/share/fonts/TTF/Mono.ttf_10.sheet.png",
                        "/usr/share/fonts/TTF/Mono.ttf_10.sheet.json")).
  { pose proof Hfiles as Hfiles'. vm_compute in Hfiles'. now injection Hfiles' as <- _. }
  subst r.
  destruct (absolute_font_name_ignores_output_dir (P := mono_platform)
              (D := posix_storage) "usr/share/fonts/TTF/Mono.ttf" 12 "out" "A" 10
              _ _ t (fun dir name => eq_refl) Hfiles)
    as (img & md & Hrun & _ & _ & Hsave & Hdump).
  exists t, img, md. auto.
Defined.


